(** * migration-viz: the aggregation script [generate_migration_variations.py]

    A shallow embedding of [MigrationDataProcessor]: the regional hierarchy
    index, the enriched record frame [self.df], and the generators of the
    derived views.  A pandas frame is a list of rows; a missing cell (NaN,
    NaT, None) is [None].  Migrant counts are integers ([Z]); means, rates,
    ranks and slopes, which pandas computes in binary floating point, are
    exact rationals ([Q]) here. *)

From Stdlib Require Import ZArith QArith Lia Lqa Ascii String.
From stdpp Require Import base tactics option list sorting strings pretty gmap.

Local Open Scope Z_scope.

(** ** Frame operations (the pandas calls of the script) *)

Module Frame.

(** The order pandas sorts group keys by. *)
Class KeyOrd (K : Type) := key_leb : K → K → bool.

#[global] Instance string_KeyOrd : KeyOrd string := String.leb.
#[global] Instance Z_KeyOrd : KeyOrd Z := Z.leb.
#[global] Instance prod_KeyOrd {A B} `{EqDecision A, KeyOrd A, KeyOrd B} :
KeyOrd (A * B) :=
λ x y, if decide (x.1 = y.1) then key_leb x.2 y.2 else key_leb x.1 y.1.

(** A stable insertion sort: an element goes in front of the first element
  it is not above. *)
Fixpoint insert_by {A} (le : A → A → bool) (x : A) (l : list A) : list A :=
match l with
| [] => [x]
| y :: l' => if le x y then x :: l else y :: insert_by le x l'
end.

Definition sort_by {A} (le : A → A → bool) (l : list A) : list A :=
foldr (insert_by le) [] l.

(** [df.groupby(cols)]: rows whose key has a missing component are left out
  (dropna=True), the groups come in key order (sort=True), the rows of a
  group keep their order in the frame. *)
Definition group_keys {R K} `{EqDecision K, KeyOrd K}
  (key : R → option K) (df : list R) : list K :=
sort_by key_leb (remove_dups (omap key df)).

Definition groupby {R K} `{EqDecision K, KeyOrd K}
  (key : R → option K) (df : list R) : list (K * list R) :=
(λ k, (k, filter (λ r, key r = Some k) df)) <$> group_keys key df.

Definition sum (xs : list Z) : Z := foldr Z.add 0 xs.

(** The mean of a column; there is none for an empty one. *)
Definition mean (xs : list Z) : option Q :=
match xs with
| [] => None
| _ => Some (inject_Z (sum xs) / inject_Z (Z.of_nat (length xs)))%Q
end.

(** [df.groupby(cols)[col].sum().reset_index()] *)
Definition groupby_sum {R K} `{EqDecision K, KeyOrd K}
  (key : R → option K) (col : R → Z) (df : list R) : list (K * Z) :=
(λ g, (g.1, sum (col <$> g.2))) <$> groupby key df.

(** [df.groupby(cols)[col].mean().reset_index()] *)
Definition groupby_mean {R K} `{EqDecision K, KeyOrd K}
  (key : R → option K) (col : R → Z) (df : list R) : list (K * option Q) :=
(λ g, (g.1, mean (col <$> g.2))) <$> groupby key df.

(** [left.merge(right, on=keys, how='outer')]: one row per pair of a left and
  a right row with the same key, and one row, with the other side missing,
  per row whose key the other frame lacks; in key order. *)
Definition merge_outer {K A B} `{EqDecision K, KeyOrd K}
  (left : list (K * A)) (right : list (K * B))
  : list (K * option A * option B) :=
mjoin ((λ k,
    let la := filter (λ a, a.1 = k) left in
    let rb := filter (λ b, b.1 = k) right in
    match la, rb with
    | [], _ => (λ b, (k, None, Some b.2)) <$> rb
    | _, [] => (λ a, (k, Some a.2, None)) <$> la
    | _, _ => a ← la; (λ b, (k, Some a.2, Some b.2)) <$> rb
    end) <$> sort_by key_leb (remove_dups (left.*1 ++ right.*1))).

(** [.fillna(0)] on a numeric cell *)
Definition fillna0 (x : option Z) : Z := default 0 x.

(** [df.groupby(cols)[col].shift(1)]: the cell of the previous row of the same
  group, missing on the first row of a group.  [seen] holds the last cell of
  each group met so far. *)
Fixpoint group_shift_aux {K V} `{EqDecision K}
  (seen : list (K * option V)) (rows : list (K * option V))
  : list (option V) :=
match rows with
| [] => []
| (k, v) :: rows' =>
    match list_find (λ e, e.1 = k) seen with
    | Some (_, (_, prev)) => prev
    | None => None
    end :: group_shift_aux ((k, v) :: seen) rows'
end.

Definition group_shift {K V} `{EqDecision K} (rows : list (K * option V))
  : list (option V) :=
group_shift_aux [] rows.

(** [s.rolling(w).mean()]: at position [i] the mean of the [w] cells ending
  there; missing while fewer than [w] cells are available. *)
Definition rolling_mean (w : nat) (xs : list Z) : list (option Q) :=
(λ i, if decide (w ≤ S i)%nat
      then mean (take w (drop (S i - w) xs))
      else None) <$> seq 0 (length xs).

(** [s.nlargest(n)]: the [n] largest entries, largest first, earlier entries
  first among equal ones (keep='first'). *)
Definition nlargest {K} (n : nat) (s : list (K * Z)) : list (K * Z) :=
take n (sort_by (λ a b, b.2 <=? a.2) s).

(** [np.polyfit(x, y, 1)[0]] for [x = np.arange(len(y))]: the slope of the
  least-squares line through the points [(i, y_i)]. *)
Definition indexed (ys : list Z) : list (Z * Z) :=
zip (Z.of_nat <$> seq 0 (length ys)) ys.

Definition polyfit_slope (ys : list Z) : Q :=
let n := Z.of_nat (length ys) in
let pts := indexed ys in
let sx := sum (fst <$> pts) in
let sy := sum (snd <$> pts) in
let sxy := sum ((λ p, p.1 * p.2) <$> pts) in
let sxx := sum ((λ p, p.1 * p.1) <$> pts) in
(inject_Z (n * sxy - sx * sy) / inject_Z (n * sxx - sx * sx))%Q.

(** [s.rank(method='dense', ascending=False)]: one more than the number of
  distinct values above the cell. *)
Definition rank_dense_desc (col : list Z) (v : Z) : Z :=
1 + Z.of_nat (length (remove_dups (filter (λ w, v < w) col))).

(** [s.rank()] (method='average', ascending): the mean of the positions
  [#below + 1 .. #below + #equal] the equal cells take in sorted order. *)
Definition rank_average (col : list Z) (v : Z) : Q :=
let below := Z.of_nat (length (filter (λ w, w < v) col)) in
let equal := Z.of_nat (length (filter (λ w, w = v) col)) in
(inject_Z (2 * below + equal + 1) / 2)%Q.

(** [s.rank(pct=True)]: the average rank over the number of cells. *)
Definition rank_pct (col : list Z) (v : Z) : Q :=
(rank_average col v / inject_Z (Z.of_nat (length col)))%Q.

End Frame.

(** ** Reading the input tables *)

(** The cell texts [pd.read_csv] turns into a missing value by default. *)
Definition na_values : list string :=
  [""; "#N/A"; "#N/A N/A"; "#NA"; "-1.#IND"; "-1.#QNAN"; "-NaN"; "-nan";
   "1.#IND"; "1.#QNAN"; "<NA>"; "N/A"; "NA"; "NULL"; "NaN"; "None"; "n/a";
   "nan"; "null"]%string.

Definition read_cell (text : string) : option string :=
  if decide (text ∈ na_values) then None else Some text.

(** A region, sub-region or intermediate-region code.  pandas reads the code
    columns as numbers; a code is kept here as a text, that of its cell,
    which stands for what [f"{code}"] prints. *)
Definition code := string.

(** A line of [m49.csv] as text, and as [read_csv] hands it over. *)
Record M49Line := {
  line_iso2 : string;
  line_region_code : string;
  line_region_name : string;
  line_subregion_code : string;
  line_subregion_name : string;
  line_intermediate_code : string;
  line_intermediate_name : string }.

Record M49Row := {
  iso_alpha2 : option string;
  region_code : option code;
  region_name : option string;
  subregion_code : option code;
  subregion_name : option string;
  intermediate_code : option code;
  intermediate_name : option string }.

Definition read_m49_line (l : M49Line) : M49Row :=
  {| iso_alpha2 := read_cell (line_iso2 l);
     region_code := read_cell (line_region_code l);
     region_name := read_cell (line_region_name l);
     subregion_code := read_cell (line_subregion_code l);
     subregion_name := read_cell (line_subregion_name l);
     intermediate_code := read_cell (line_intermediate_code l);
     intermediate_name := read_cell (line_intermediate_name l) |}.

Definition read_m49 (lines : list M49Line) : list M49Row :=
  read_m49_line <$> lines.

(** A line of [international_migration_flow.csv]. *)
Record FlowLine := {
  line_country_from : string;
  line_country_to : string;
  line_migration_month : string;
  line_num_migrants : Z }.

(** ** The regional hierarchy index ([load_regional_mappings]) *)

Record HierarchyIndex := {
  country_to_region : gmap string (option code);
  country_to_subregion : gmap string (option code);
  country_to_intermediate : gmap string (option code);
  region_names : gmap code (option string);
  subregion_names : gmap code (option string);
  intermediate_names : gmap code (option string) }.

Definition empty_index : HierarchyIndex :=
  {| country_to_region := ∅; country_to_subregion := ∅;
     country_to_intermediate := ∅; region_names := ∅;
     subregion_names := ∅; intermediate_names := ∅ |}.

(** [if not pd.isna(code): names[code] = name] *)
Definition store_name (c : option code) (name : option string)
    (names : gmap code (option string)) : gmap code (option string) :=
  match c with
  | Some c => <[c := name]> names
  | None => names
  end.

(** The body of the loop over the rows of the classification table. *)
Definition add_m49_row (idx : HierarchyIndex) (row : M49Row) : HierarchyIndex :=
  match iso_alpha2 row with
  | None => idx
  | Some iso2 =>
      {| country_to_region := <[iso2 := region_code row]> (country_to_region idx);
         country_to_subregion :=
           <[iso2 := subregion_code row]> (country_to_subregion idx);
         country_to_intermediate :=
           <[iso2 := intermediate_code row]> (country_to_intermediate idx);
         region_names :=
           store_name (region_code row) (region_name row) (region_names idx);
         subregion_names :=
           store_name (subregion_code row) (subregion_name row)
             (subregion_names idx);
         intermediate_names :=
           store_name (intermediate_code row) (intermediate_name row)
             (intermediate_names idx) |}
  end.

Definition load_regional_mappings (m49 : list M49Row) : HierarchyIndex :=
  foldl add_m49_row empty_index m49.

(** [names.get(code, f"<Label>_{code}")] *)
Inductive Kind := Region | Subregion | Intermediate.

Definition kind_label (k : Kind) : string :=
  match k with
  | Region => "Region"
  | Subregion => "Subregion"
  | Intermediate => "Intermediate"
  end.

Definition kind_names (idx : HierarchyIndex) (k : Kind)
    : gmap code (option string) :=
  match k with
  | Region => region_names idx
  | Subregion => subregion_names idx
  | Intermediate => intermediate_names idx
  end.

Definition kind_code (k : Kind) (row : M49Row) : option code :=
  match k with
  | Region => region_code row
  | Subregion => subregion_code row
  | Intermediate => intermediate_code row
  end.

Definition fallback_label (k : Kind) (c : code) : string :=
  kind_label k +:+ "_" +:+ c.

Definition nameFor (idx : HierarchyIndex) (k : Kind) (c : code)
    : option string :=
  default (Some (fallback_label k c)) (kind_names idx k !! c).

(** ** The record store ([load_migration_data]) *)

Inductive Exn :=
  | DateParseError          (* [pd.to_datetime] rejects the month column *)
  | TypeError               (* [nlargest] on a column without numeric dtype *)
  | NoObjectsToConcatenate  (* [pd.concat] of an empty list *)
  | FileNotFoundError.      (* [stat] of a path that was never written *)

Record Date := { date_year : Z; date_month : Z; date_day : Z }.

Inductive Season := Winter | Spring | Summer | Fall.

#[global] Instance Exn_eq_dec : EqDecision Exn.
Proof. solve_decision. Defined.
#[global] Instance Date_eq_dec : EqDecision Date.
Proof. solve_decision. Defined.
#[global] Instance Season_eq_dec : EqDecision Season.
Proof. solve_decision. Defined.

Definition digit (c : ascii) : option Z :=
  let n := Z.of_N (N_of_ascii c) in
  if (48 <=? n) && (n <=? 57) then Some (n - 48) else None.

(** The value of a run of decimal digits; none if another character occurs. *)
Fixpoint digits_from (acc : Z) (s : string) : option Z :=
  match s with
  | EmptyString => Some acc
  | String c s' => d ← digit c; digits_from (10 * acc + d) s'
  end.

Definition number (s : string) : option Z := digits_from 0 s.

Definition is_leap (y : Z) : bool :=
  ((y mod 4 =? 0) && negb (y mod 100 =? 0)) || (y mod 400 =? 0).

Definition days_in_month (y m : Z) : Z :=
  if m =? 2 then (if is_leap y then 29 else 28)
  else if (m =? 4) || (m =? 6) || (m =? 9) || (m =? 11) then 30
  else 31.

Definition valid_date (d : Date) : bool :=
  (1 <=? date_month d) && (date_month d <=? 12) && (1 <=? date_day d)
  && (date_day d <=? days_in_month (date_year d) (date_month d)).

(** The two formats of the month column: "%Y-%m" and "%Y-%m-%d". *)
Inductive DateFormat := Fmt_Ym | Fmt_Ymd.

Definition strptime (fmt : DateFormat) (s : string) : option Date :=
  match fmt with
  | Fmt_Ym =>
      if decide (String.length s = 7%nat ∧ String.get 4 s = Some "-"%char) then
        y ← number (String.substring 0 4 s);
        m ← number (String.substring 5 2 s);
        let d := {| date_year := y; date_month := m; date_day := 1 |} in
        if valid_date d then Some d else None
      else None
  | Fmt_Ymd =>
      if decide (String.length s = 10%nat ∧ String.get 4 s = Some "-"%char
                 ∧ String.get 7 s = Some "-"%char) then
        y ← number (String.substring 0 4 s);
        m ← number (String.substring 5 2 s);
        dd ← number (String.substring 8 2 s);
        let d := {| date_year := y; date_month := m; date_day := dd |} in
        if valid_date d then Some d else None
      else None
  end.

Definition guess_datetime_format (s : string) : option DateFormat :=
  if strptime Fmt_Ym s is Some _ then Some Fmt_Ym
  else if strptime Fmt_Ymd s is Some _ then Some Fmt_Ymd
  else None.

(** [pd.to_datetime(column)] with its default arguments, on the texts the
    flow table holds: a missing cell becomes NaT; the format is guessed from
    the first cell that is present, and every cell is then read in that
    format; a cell that does not fit raises.  pandas also reads date
    notations other than the two ISO ones listed in [DateFormat]; those are
    outside this model, which treats them as raising. *)
Definition to_datetime (column : list (option string))
    : Exn + list (option Date) :=
  match head (omap id column) with
  | None => inr ((λ _, None) <$> column)
  | Some first =>
      match guess_datetime_format first with
      | None => inl DateParseError
      | Some fmt =>
          match mapM (λ cell,
                   match cell with
                   | None => Some None
                   | Some s => Some <$> strptime fmt s
                   end) column with
          | Some dates => inr dates
          | None => inl DateParseError
          end
      end
  end.

(** A row of [self.df] after [load_migration_data]. *)
Record FlowRecord := {
  country_from : option string;
  country_to : option string;
  migration_month : option string;
  num_migrants : Z;
  date : option Date;
  year : option Z;
  month : option Z;
  quarter : option Z;
  region_from : option code;
  region_to : option code;
  subregion_from : option code;
  subregion_to : option code;
  intermediate_from : option code;
  intermediate_to : option code;
  season : option Season }.

Definition season_map (m : Z) : option Season :=
  if decide (m ∈ [12; 1; 2]) then Some Winter
  else if decide (m ∈ [3; 4; 5]) then Some Spring
  else if decide (m ∈ [6; 7; 8]) then Some Summer
  else if decide (m ∈ [9; 10; 11]) then Some Fall
  else None.

(** [series.map(dict)]: a missing cell, a key the dict lacks and a key bound
    to a missing value all give a missing cell. *)
Definition map_dict (d : gmap string (option code)) (cell : option string)
    : option code :=
  c ← cell; mjoin (d !! c).

Definition enrich (idx : HierarchyIndex) (l : FlowLine) (d : option Date)
    : FlowRecord :=
  let origin := read_cell (line_country_from l) in
  let dest := read_cell (line_country_to l) in
  {| country_from := origin;
     country_to := dest;
     migration_month := read_cell (line_migration_month l);
     num_migrants := line_num_migrants l;
     date := d;
     year := date_year <$> d;
     month := date_month <$> d;
     quarter := (λ d, (date_month d - 1) / 3 + 1) <$> d;
     region_from := map_dict (country_to_region idx) origin;
     region_to := map_dict (country_to_region idx) dest;
     subregion_from := map_dict (country_to_subregion idx) origin;
     subregion_to := map_dict (country_to_subregion idx) dest;
     intermediate_from := map_dict (country_to_intermediate idx) origin;
     intermediate_to := map_dict (country_to_intermediate idx) dest;
     season := d ≫= λ d, season_map (date_month d) |}.

(** The month column of the flow table, as [read_csv] hands it over. *)
Definition month_column (lines : list FlowLine) : list (option string) :=
  (λ l, read_cell (line_migration_month l)) <$> lines.

Definition load_migration_data (idx : HierarchyIndex) (lines : list FlowLine)
    : Exn + list FlowRecord :=
  match to_datetime (month_column lines) with
  | inl e => inl e
  | inr dates => inr (zip_with (enrich idx) lines dates)
  end.

(** ** The generators *)

Definition key2 {A B} (a : option A) (b : option B) : option (A * B) :=
  a ← a; b ← b; Some (a, b).

Definition key3 {A B C} (a : option A) (b : option B) (c : option C)
    : option (A * B * C) :=
  a ← a; b ← b; c ← c; Some (a, b, c).

Definition key4 {A B C D} (a : option A) (b : option B) (c : option C)
    (d : option D) : option (A * B * C * D) :=
  a ← a; b ← b; c ← c; d ← d; Some (a, b, c, d).

(** [s.unique()]: the distinct cells in order of first appearance. *)
Fixpoint unique {A} `{EqDecision A} (l : list A) : list A :=
  match l with
  | [] => []
  | x :: l' => x :: filter (λ y, y ≠ x) (unique l')
  end.

(** *** Spatial aggregations *)

(** [self.df[['country_from','country_to','migration_month','num_migrants']]] *)
Definition generate_country_to_country (df : list FlowRecord)
    : list (option string * option string * option string * Z) :=
  (λ r, (country_from r, country_to r, migration_month r, num_migrants r))
    <$> df.

(** The loop shared by the spatial roll-ups: one row per group, the
    migrants of the group summed. *)
Definition monthly_sums {A B} `{EqDecision A, EqDecision B}
    `{Frame.KeyOrd A, Frame.KeyOrd B}
    (origin : FlowRecord → option A) (dest : FlowRecord → option B)
    (df : list FlowRecord) : list (A * B * string * Z) :=
  Frame.groupby_sum (λ r, key3 (origin r) (dest r) (migration_month r))
    num_migrants df.

Definition generate_region_to_country (idx : HierarchyIndex)
    (df : list FlowRecord) : list (option string * string * string * Z) :=
  (λ '(region_from, country_to, date, total),
     (nameFor idx Region region_from, country_to, date, total))
    <$> monthly_sums region_from country_to df.

Definition generate_country_to_region (idx : HierarchyIndex)
    (df : list FlowRecord) : list (string * option string * string * Z) :=
  (λ '(country_from, region_to, date, total),
     (country_from, nameFor idx Region region_to, date, total))
    <$> monthly_sums country_from region_to df.

Definition generate_region_to_region (idx : HierarchyIndex)
    (df : list FlowRecord)
    : list (option string * option string * string * Z) :=
  (λ '(region_from, region_to, date, total),
     (nameFor idx Region region_from, nameFor idx Region region_to, date,
      total))
    <$> monthly_sums region_from region_to df.

Definition subregion_flows (idx : HierarchyIndex) (df : list FlowRecord)
    : list (option string * option string * string * Z) :=
  (λ '(subregion_from, subregion_to, date, total),
     (nameFor idx Subregion subregion_from,
      nameFor idx Subregion subregion_to, date, total))
    <$> monthly_sums subregion_from subregion_to df.

Definition intermediate_flows (idx : HierarchyIndex) (df : list FlowRecord)
    : list (option string * option string * string * Z) :=
  (λ '(inter_from, inter_to, date, total),
     (nameFor idx Intermediate inter_from,
      nameFor idx Intermediate inter_to, date, total))
    <$> monthly_sums intermediate_from intermediate_to df.

(** *** Temporal aggregations *)

(** [.astype(str)] on the year and quarter columns, which hold floats when
    some date of the frame is NaT. *)
Definition astype_str (df : list FlowRecord) (n : Z) : string :=
  if decide (Exists (λ r, date r = None) df) then pretty n +:+ ".0"
  else pretty n.

Definition generate_quarterly_averages (df : list FlowRecord)
    : list (string * string * string * option Q) :=
  (λ '(country_from, country_to, year, quarter, avg),
     (country_from, country_to,
      astype_str df year +:+ "-Q" +:+ astype_str df quarter, avg))
    <$> Frame.groupby_mean
          (λ r, key4 (country_from r) (country_to r) (year r) (quarter r))
          num_migrants df.

(** [self.df.groupby(['country_from','country_to','year'])['num_migrants'].sum()] *)
Definition annual_totals (df : list FlowRecord)
    : list (string * string * Z * Z) :=
  Frame.groupby_sum (λ r, key3 (country_from r) (country_to r) (year r))
    num_migrants df.

Definition annual_region_totals (idx : HierarchyIndex) (df : list FlowRecord)
    : list (option string * option string * Z * Z) :=
  (λ '(region_from, region_to, year, total),
     (nameFor idx Region region_from, nameFor idx Region region_to, year,
      total))
    <$> Frame.groupby_sum (λ r, key3 (region_from r) (region_to r) (year r))
          num_migrants
          (filter (λ r, is_Some (region_from r) ∧ is_Some (region_to r)) df).

Definition season_name (s : Season) : string :=
  match s with
  | Winter => "Winter" | Spring => "Spring"
  | Summer => "Summer" | Fall => "Fall"
  end.

#[global] Instance Season_KeyOrd : Frame.KeyOrd Season :=
  λ a b, String.leb (season_name a) (season_name b).

(** The pivot has a column per season that occurs in the frame; a corridor
    without records in such a season gets 0 there ([fillna(0)]). *)
Definition pivot_cell (s : Season)
    (cells : list (string * string * Season * option Q)) : Q :=
  match list_find (λ e, e.1.2 = s) cells with
  | Some (_, (_, Some v)) => v
  | _ => 0%Q
  end.

Definition generate_seasonal_patterns (df : list FlowRecord)
    : list (string * string * list (Season * Q)) :=
  let seasonal :=
    Frame.groupby_mean (λ r, key3 (country_from r) (country_to r) (season r))
      num_migrants df in
  let columns := Frame.sort_by Frame.key_leb (remove_dups (seasonal.*1.*2)) in
  (λ g, (g.1.1, g.1.2, (λ s, (s, pivot_cell s g.2)) <$> columns))
    <$> Frame.groupby (λ e, Some e.1.1) seasonal.

(** [sort_values('date')] puts NaT last. *)
Definition date_leb (a b : option Date) : bool :=
  match a, b with
  | Some x, Some y =>
      if date_year x =? date_year y then
        if date_month x =? date_month y then date_day x <=? date_day y
        else date_month x <=? date_month y
      else date_year x <=? date_year y
  | Some _, None => true
  | None, Some _ => false
  | None, None => true
  end.

Record RollingRow := {
  rr_country_from : option string;
  rr_country_to : option string;
  rr_migration_month : option string;
  rr_num_migrants : Z;
  rolling_3m : option Q;
  rolling_6m : option Q;
  trend_slope : option Q }.

(** The 100 corridors with the largest all-time totals. *)
Definition top_corridors (df : list FlowRecord) : list (string * string) :=
  (Frame.nlargest 100
     (Frame.groupby_sum (λ r, key2 (country_from r) (country_to r))
        num_migrants df)).*1.

(** The records of a corridor in date order ([sort_values('date')]); records
    of one date keep their order here, pandas promises none among them. *)
Definition corridor_df (df : list FlowRecord) (c : string * string)
    : list FlowRecord :=
  Frame.sort_by (λ a b, date_leb (date a) (date b))
    (filter (λ r, country_from r = Some c.1 ∧ country_to r = Some c.2) df).

(** [s.tail(n)] *)
Definition tail_n {A} (n : nat) (l : list A) : list A :=
  drop (length l - n) l.

(** The body of the loop over the top corridors: the rows the corridor adds
    to [corridor_data], if any. *)
Definition corridor_rows (df : list FlowRecord) (c : string * string)
    : option (list RollingRow) :=
  let cdf := corridor_df df c in
  if decide (6 ≤ length cdf)%nat then
    let counts := num_migrants <$> cdf in
    let slope :=
      if decide (12 ≤ length cdf)%nat
      then Some (Frame.polyfit_slope (tail_n 12 counts))
      else None in
    Some (zip_with
            (λ r avg, {| rr_country_from := country_from r;
                         rr_country_to := country_to r;
                         rr_migration_month := migration_month r;
                         rr_num_migrants := num_migrants r;
                         rolling_3m := avg.1;
                         rolling_6m := avg.2;
                         trend_slope := slope |})
            cdf
            (zip (Frame.rolling_mean 3 counts) (Frame.rolling_mean 6 counts)))
  else None.

Definition corridor_data (df : list FlowRecord) : list (list RollingRow) :=
  omap (corridor_rows df) (top_corridors df).

(** [pd.concat(corridor_data, ignore_index=True)] *)
Definition generate_rolling_averages (df : list FlowRecord) : list RollingRow :=
  mjoin (corridor_data df).

(** *** Flow calculations *)

Definition generate_gross_flows (df : list FlowRecord)
    : list (string * string * Z * Z) :=
  annual_totals df.

Record NetFlowRow := {
  nf_country_from : string;
  nf_country_to : string;
  nf_year : Z;
  net_flow : Z;
  gross_flow : Z }.

Definition outbound (df : list FlowRecord) : list (string * string * Z * Z) :=
  Frame.groupby_sum (λ r, key3 (country_from r) (country_to r) (year r))
    num_migrants df.

(** Grouped by ([country_to], [country_from], [year]); the renaming then
    calls the first column [country_from] and the second [country_to]. *)
Definition inbound (df : list FlowRecord) : list (string * string * Z * Z) :=
  Frame.groupby_sum (λ r, key3 (country_to r) (country_from r) (year r))
    num_migrants df.

Definition generate_net_flows (df : list FlowRecord) : list NetFlowRow :=
  (λ '(country_from, country_to, year, num_migrants_out, num_migrants_in),
     let num_migrants_out := Frame.fillna0 num_migrants_out in
     let num_migrants_in := Frame.fillna0 num_migrants_in in
     {| nf_country_from := country_from;
        nf_country_to := country_to;
        nf_year := year;
        net_flow := num_migrants_in - num_migrants_out;
        gross_flow := num_migrants_in + num_migrants_out |})
    <$> Frame.merge_outer (outbound df) (inbound df).

Record RankRow := {
  rk_country_from : string;
  rk_country_to : string;
  rk_year : Z;
  rk_num_migrants : Z;
  rank : Z;
  percentile : Q }.

(** The frame [year_data] of one pass of the loop over the years. *)
Definition year_data (annual : list (string * string * Z * Z)) (y : Z)
    : list (string * string * Z * Z) :=
  filter (λ r, r.1.2 = y) annual.

Definition rank_year (annual : list (string * string * Z * Z)) (y : Z)
    : list RankRow :=
  let data := year_data annual y in
  (λ r, {| rk_country_from := r.1.1.1;
           rk_country_to := r.1.1.2;
           rk_year := r.1.2;
           rk_num_migrants := r.2;
           rank := Frame.rank_dense_desc data.*2 r.2;
           percentile := (Frame.rank_pct data.*2 r.2 * 100)%Q |})
    <$> data.

(** [pd.concat] raises on an empty list of frames. *)
Definition generate_corridor_rankings (df : list FlowRecord)
    : Exn + list RankRow :=
  let annual := annual_totals df in
  match rank_year annual <$> unique annual.*1.*2 with
  | [] => inl NoObjectsToConcatenate
  | rankings => inr (mjoin rankings)
  end.

Record GrowthRow := {
  gr_country_from : string;
  gr_country_to : string;
  gr_year : Z;
  gr_num_migrants : Z;
  growth_rate : option Q;
  growth_velocity : option Q }.

(** [(num - prev) / prev.replace(0, nan) * 100] *)
Definition growth_rate_cell (num : Z) (prev : option Z) : option Q :=
  match prev with
  | Some p =>
      if decide (p = 0) then None
      else Some (inject_Z (num - p) / inject_Z p * 100)%Q
  | None => None
  end.

Definition velocity_cell (rate prev_rate : option Q) : option Q :=
  match rate, prev_rate with
  | Some g, Some pg => Some (g - pg)%Q
  | _, _ => None
  end.

(** [annual_flows.sort_values(['country_from', 'country_to', 'year'])] *)
Definition annual_flows (df : list FlowRecord)
    : list (string * string * Z * Z) :=
  Frame.sort_by (λ a b, Frame.key_leb a.1 b.1) (annual_totals df).

(** The columns added to [annual_flows]: [prev_year_flow], [growth_rate],
    [prev_growth_rate]; the groups are the corridors. *)
Definition corridor_col (df : list FlowRecord) : list (string * string) :=
  (λ r : string * string * Z * Z, r.1.1) <$> annual_flows df.

Definition prev_year_flow (df : list FlowRecord) : list (option Z) :=
  Frame.group_shift (zip (corridor_col df) (Some <$> (annual_flows df).*2)).

Definition growth_rate_col (df : list FlowRecord) : list (option Q) :=
  zip_with growth_rate_cell (annual_flows df).*2 (prev_year_flow df).

Definition prev_growth_rate (df : list FlowRecord) : list (option Q) :=
  Frame.group_shift (zip (corridor_col df) (growth_rate_col df)).

(** A row of the result: the annual total with its growth rate and
    [growth_velocity = growth_rate - prev_growth_rate]. *)
Definition growth_row (r : string * string * Z * Z)
    (g : option Q * option Q) : GrowthRow :=
  {| gr_country_from := r.1.1.1;
     gr_country_to := r.1.1.2;
     gr_year := r.1.2;
     gr_num_migrants := r.2;
     growth_rate := g.1;
     growth_velocity := velocity_cell g.1 g.2 |}.

(** All rows of [annual_flows] with their growth columns, before [dropna]. *)
Definition growth_frame (df : list FlowRecord) : list GrowthRow :=
  zip_with growth_row (annual_flows df)
    (zip (growth_rate_col df) (prev_growth_rate df)).

(** [.dropna(subset=['growth_rate'])] *)
Definition generate_growth_rates (df : list FlowRecord) : list GrowthRow :=
  filter (λ r, is_Some (growth_rate r)) (growth_frame df).

(** ** The run: [__init__] and [generate_all_variations] *)

Record Processor := {
  index : HierarchyIndex;
  df : list FlowRecord }.

Definition init (m49 : list M49Line) (flows : list FlowLine)
    : Exn + Processor :=
  let idx := load_regional_mappings (read_m49 m49) in
  match load_migration_data idx flows with
  | inl e => inl e
  | inr records => inr {| index := idx; df := records |}
  end.

(** An artifact: the file name and the number of records in its array. *)
Definition Artifact : Type := string * nat.

(** Steps of the run write artifacts or raise; the state is the list of the
    artifacts written so far. *)
Definition Run (A : Type) : Type := list Artifact → Exn + (A * list Artifact).

#[global] Instance Run_ret : MRet Run := λ A x log, inr (x, log).
#[global] Instance Run_bind : MBind Run := λ A B f m log,
  match m log with
  | inl e => inl e
  | inr (x, log') => f x log'
  end.

Definition raise {A} (e : Exn) : Run A := λ _, inl e.

Definition lift {A} (x : Exn + A) : Run A := λ log,
  match x with
  | inl e => inl e
  | inr a => inr (a, log)
  end.

(** [frame.to_json(output_dir / name, orient='records')] *)
Definition to_json {A} (name : string) (frame : list A) : Run string :=
  λ log, inr (name, log ++ [(name, length frame)]).

(** [path.stat()]: the file has to exist, written by this run or left in the
    output directory [existing] by an earlier one. *)
Definition stat (existing : list string) (path : string) : Run unit := λ log,
  if decide (path ∈ existing ∨ path ∈ log.*1) then inr ((), log)
  else inl FileNotFoundError.

Section Emit.
Variable self : Processor.

Definition emit_country_to_country : Run string :=
  to_json "flows_country_to_country_monthly.json"
    (generate_country_to_country (df self)).

Definition emit_region_to_country : Run string :=
  to_json "flows_region_to_country_monthly.json"
    (generate_region_to_country (index self) (df self)).

Definition emit_country_to_region : Run string :=
  to_json "flows_country_to_region_monthly.json"
    (generate_country_to_region (index self) (df self)).

Definition emit_region_to_region : Run string :=
  to_json "flows_region_to_region_monthly.json"
    (generate_region_to_region (index self) (df self)).

(** The intermediate-region file is written only [if self.intermediate_names]. *)
Definition emit_subregional_clustering : Run string :=
  output_path ← to_json "flows_subregion_to_subregion_monthly.json"
                  (subregion_flows (index self) (df self));
  (if decide (intermediate_names (index self) = ∅) then mret ""
   else to_json "flows_intermediate_to_intermediate_monthly.json"
          (intermediate_flows (index self) (df self)));;
  mret output_path.

Definition emit_quarterly_averages : Run string :=
  to_json "flows_country_to_country_quarterly.json"
    (generate_quarterly_averages (df self)).

Definition emit_annual_totals : Run string :=
  output_path ← to_json "flows_country_to_country_annual.json"
                  (annual_totals (df self));
  to_json "flows_region_to_region_annual.json"
    (annual_region_totals (index self) (df self));;
  mret output_path.

Definition emit_seasonal_patterns : Run string :=
  to_json "flows_seasonal_patterns_country.json"
    (generate_seasonal_patterns (df self)).

(** For a flow table without lines [read_csv] gives the count column the
    dtype object, the grouped sums keep it, and [nlargest] raises on it.
    The file is written only [if corridor_data]; the path is returned
    either way. *)
Definition emit_rolling_averages : Run string :=
  (if decide (df self = []) then raise TypeError
   else match corridor_data (df self) with
        | [] => mret ""
        | _ => to_json "flows_rolling_averages_top100.json"
                 (generate_rolling_averages (df self))
        end);;
  mret "flows_rolling_averages_top100.json".

Definition emit_gross_flows : Run string :=
  to_json "flows_gross_annual_country.json" (generate_gross_flows (df self)).

Definition emit_net_flows : Run string :=
  to_json "flows_net_annual_country.json" (generate_net_flows (df self)).

Definition emit_corridor_rankings : Run string :=
  rankings_df ← lift (generate_corridor_rankings (df self));
  to_json "flows_corridor_rankings_annual.json" rankings_df.

Definition emit_growth_rates : Run string :=
  to_json "flows_growth_rates_annual.json" (generate_growth_rates (df self)).

(** The thirteen calls, in order; each appends the path it returns to
    [generated_files]. *)
Definition generators : list (Run string) :=
  [ emit_country_to_country; emit_region_to_country;
    emit_country_to_region; emit_region_to_region;
    emit_subregional_clustering;
    emit_quarterly_averages; emit_annual_totals; emit_seasonal_patterns;
    emit_rolling_averages;
    emit_gross_flows; emit_net_flows; emit_corridor_rankings;
    emit_growth_rates ].

(** Returns [generated_files]; the summary loop stats every path in it. *)
Definition generate_all_variations (existing : list string)
    : Run (list string) :=
  generated_files ← mapM id generators;
  mapM (stat existing) generated_files;;
  mret generated_files.
End Emit.

(** A whole run of the script, from the two tables as text and the names of
    the files the output directory holds beforehand: the paths reported in
    the summary and the artifacts written. *)
Definition main (m49 : list M49Line) (flows : list FlowLine)
    (existing : list string) : Exn + (list string * list Artifact) :=
  match init m49 flows with
  | inl e => inl e
  | inr processor => generate_all_variations processor existing []
  end.

(** ** The date conversion script [convert_dates_for_db.py] *)

(** The original file as [pd.read_csv] hands it over: the names of its
    columns and its lines.  The cells of a column the file lacks are never
    looked at. *)
Record Csv := {
  csv_columns : list string;
  csv_lines : list FlowLine }.

(** The columns of the sample that is printed before the conversion;
    selecting a column the frame lacks raises. *)
Definition sample_columns : list string :=
  ["country_from"; "country_to"; "migration_month"; "num_migrants"]%string.

(** [.astype(str)] on a cell of the month column: a missing cell is printed
    as nan. *)
Definition month_str (cell : option string) : string := default "nan" cell.

(** [df['migration_month'].astype(str) + '-01'] *)
Definition with_first_day (l : FlowLine) : string :=
  month_str (read_cell (line_migration_month l)) +:+ "-01".

(** The outcome of [convert_migration_dates]: the value returned and, if
    [to_csv] was reached, the month column of the file written. *)
Record Conversion := {
  returned : bool;
  written_months : option (list Date) }.

(** [original] is the file at the expected path, if there is one.  Whatever
    is raised inside [try] is caught and makes the function return False:
    the selection of a column the frame lacks, a text that
    [pd.to_datetime(..., format='%Y-%m-%d')] rejects, and [strftime] on the
    NaT that [min()] gives for an empty column, which is reached after the
    file has been written. *)
Definition convert_migration_dates (original : option Csv) : Conversion :=
  match original with
  | None => {| returned := false; written_months := None |}
  | Some csv =>
      if decide ("migration_month" ∈ csv_columns csv) then
        if decide (sample_columns ⊆ csv_columns csv) then
          match mapM (λ l, strptime Fmt_Ymd (with_first_day l))
                  (csv_lines csv) with
          | None => {| returned := false; written_months := None |}
          | Some [] => {| returned := false; written_months := Some [] |}
          | Some dates => {| returned := true; written_months := Some dates |}
          end
        else {| returned := false; written_months := None |}
      else {| returned := false; written_months := None |}
  end.

(** [main]: the exit status of the script. *)
Definition convert_main (original : option Csv) : Z :=
  if returned (convert_migration_dates original) then 0 else 1.

(** ** Notions the statements below use *)

(** The migrants recorded as moving from [a] to [b] in year [y]; 0 when
    there is no such record. *)
Definition flow_sum (df : list FlowRecord) (a b : string) (y : Z) : Z :=
  Frame.sum (num_migrants <$>
    filter (λ r, key3 (country_from r) (country_to r) (year r) = Some (a, b, y))
      df).

(** A record of the corridor from [a] to [b] in year [y]. *)
Definition has_flow (df : list FlowRecord) (a b : string) (y : Z) : Prop :=
  ∃ r, r ∈ df ∧ country_from r = Some a ∧ country_to r = Some b
       ∧ year r = Some y.

#[global] Instance has_flow_dec df a b y : Decision (has_flow df a b y).
Proof.
  refine (cast_if (decide (Exists (λ r, country_from r = Some a
                                        ∧ country_to r = Some b
                                        ∧ year r = Some y) df)));
    unfold has_flow; rewrite Exists_exists in *; done.
Defined.

Definition nf_key (row : NetFlowRow) : string * string * Z :=
  (nf_country_from row, nf_country_to row, nf_year row).

(** The row the net-flow view should hold for the corridor from [f] to [t]
    in year [y]: inbound is what moved from [t] to [f], outbound what moved
    from [f] to [t]. *)
Definition net_row (df : list FlowRecord) (f t : string) (y : Z)
    : NetFlowRow :=
  {| nf_country_from := f; nf_country_to := t; nf_year := y;
     net_flow := flow_sum df t f y - flow_sum df f t y;
     gross_flow := flow_sum df t f y + flow_sum df f t y |}.

(** The totals of the rows of a ranking for year [y], and how many of the
    cells of a column are below, equal to, or at most a value. *)
Definition year_totals (rows : list RankRow) (y : Z) : list Z :=
  rk_num_migrants <$> filter (λ r, rk_year r = y) rows.

Definition count_below (col : list Z) (v : Z) : Z :=
  Z.of_nat (length (filter (λ w, w < v) col)).

Definition count_equal (col : list Z) (v : Z) : Z :=
  Z.of_nat (length (filter (λ w, w = v) col)).

Definition count_at_most (col : list Z) (v : Z) : Z :=
  Z.of_nat (length (filter (λ w, w ≤ v) col)).

(** Three corridors in one year, two of them with the same total. *)
Definition tied_flows : list FlowLine :=
  [ {| line_country_from := "AA"; line_country_to := "BB";
       line_migration_month := "2020-01"; line_num_migrants := 100 |};
    {| line_country_from := "BB"; line_country_to := "AA";
       line_migration_month := "2020-03"; line_num_migrants := 100 |};
    {| line_country_from := "AA"; line_country_to := "CC";
       line_migration_month := "2020-02"; line_num_migrants := 40 |} ].

Definition tied_top : RankRow :=
  {| rk_country_from := "AA"; rk_country_to := "BB"; rk_year := 2020;
     rk_num_migrants := 100; rank := 1; percentile := 500 # 6 |}.

Definition tied_low : RankRow :=
  {| rk_country_from := "AA"; rk_country_to := "CC"; rk_year := 2020;
     rk_num_migrants := 40; rank := 2; percentile := 200 # 6 |}.

Definition tied_rankings : list RankRow :=
  [ tied_top; tied_low;
    {| rk_country_from := "BB"; rk_country_to := "AA"; rk_year := 2020;
       rk_num_migrants := 100; rank := 1; percentile := 500 # 6 |} ].

(** The cells of a column on the rows whose key satisfies [P]. *)
Definition pick {K V} (P : K → Prop) `{∀ k, Decision (P k)}
    (keys : list K) (col : list V) : list V :=
  snd <$> filter (λ e, P e.1) (zip keys col).

(** The annual totals of a corridor, as (year, total), in the order of the
    sorted frame [annual_flows]. *)
Definition corridor_series (df : list FlowRecord) (f t : string)
    : list (Z * Z) :=
  (λ r, (r.1.2, r.2)) <$> filter (λ r, r.1.1 = (f, t)) (annual_flows df).

(** The total of the corridor's previous year in its series; none for the
    first year. *)
Definition previous_total (series : list (Z * Z)) (i : nat) : option Z :=
  match i with
  | O => None
  | S j => snd <$> series !! j
  end.

Definition series_rate (series : list (Z * Z)) (i : nat) : option Q :=
  cur ← snd <$> series !! i; growth_rate_cell cur (previous_total series i).

Definition previous_rate (series : list (Z * Z)) (i : nat) : option Q :=
  match i with
  | O => None
  | S j => series_rate series j
  end.

Definition gr_key (row : GrowthRow) : string * string * Z :=
  (gr_country_from row, gr_country_to row, gr_year row).

(** A corridor with three years of records, and one whose first year has a
    total of 0. *)
Definition growth_flows : list FlowLine :=
  [ {| line_country_from := "AA"; line_country_to := "BB";
       line_migration_month := "2019-05"; line_num_migrants := 50 |};
    {| line_country_from := "AA"; line_country_to := "BB";
       line_migration_month := "2020-05"; line_num_migrants := 100 |};
    {| line_country_from := "AA"; line_country_to := "BB";
       line_migration_month := "2021-05"; line_num_migrants := 150 |};
    {| line_country_from := "CC"; line_country_to := "DD";
       line_migration_month := "2019-01"; line_num_migrants := 0 |};
    {| line_country_from := "CC"; line_country_to := "DD";
       line_migration_month := "2020-01"; line_num_migrants := 10 |} ].

(** The corridor of a row of the rolling-averages view, the rows of the view
    for a corridor, and the number of records of the corridor. *)
Definition rr_key (row : RollingRow) : option (string * string) :=
  key2 (rr_country_from row) (rr_country_to row).


Definition observations (df : list FlowRecord) (c : string * string) : nat :=
  length (filter (λ r, country_from r = Some c.1 ∧ country_to r = Some c.2) df).

(** The paths [generate_all_variations] collects in [generated_files]. *)
Definition reported_paths : list string :=
  [ "flows_country_to_country_monthly.json";
    "flows_region_to_country_monthly.json";
    "flows_country_to_region_monthly.json";
    "flows_region_to_region_monthly.json";
    "flows_subregion_to_subregion_monthly.json";
    "flows_country_to_country_quarterly.json";
    "flows_country_to_country_annual.json";
    "flows_seasonal_patterns_country.json";
    "flows_rolling_averages_top100.json";
    "flows_gross_annual_country.json";
    "flows_net_annual_country.json";
    "flows_corridor_rankings_annual.json";
    "flows_growth_rates_annual.json" ].

(** The files a run writes, in order: thirteen always, the
    intermediate-region one if the index holds an intermediate-region name,
    the rolling-averages one if some top corridor contributed rows. *)
Definition written_files (self : Processor) : list string :=
  [ "flows_country_to_country_monthly.json";
    "flows_region_to_country_monthly.json";
    "flows_country_to_region_monthly.json";
    "flows_region_to_region_monthly.json";
    "flows_subregion_to_subregion_monthly.json" ]
  ++ (if decide (intermediate_names (index self) = ∅) then []
      else ["flows_intermediate_to_intermediate_monthly.json"])
  ++ [ "flows_country_to_country_quarterly.json";
       "flows_country_to_country_annual.json";
       "flows_region_to_region_annual.json";
       "flows_seasonal_patterns_country.json" ]
  ++ (match corridor_data (df self) with
      | [] => []
      | _ => ["flows_rolling_averages_top100.json"]
      end)
  ++ [ "flows_gross_annual_country.json";
       "flows_net_annual_country.json";
       "flows_corridor_rankings_annual.json";
       "flows_growth_rates_annual.json" ].

(** A classification table with an intermediate region, and a corridor with
    six months of records. *)
Definition intermediate_m49 : list M49Line :=
  [ {| line_iso2 := "AA";
       line_region_code := "2"; line_region_name := "Africa";
       line_subregion_code := "202";
       line_subregion_name := "Sub-Saharan Africa";
       line_intermediate_code := "14";
       line_intermediate_name := "Eastern Africa" |} ].

Definition six_flows : list FlowLine :=
  (λ m, {| line_country_from := "AA"; line_country_to := "BB";
           line_migration_month := m.1; line_num_migrants := m.2 |})
    <$> [ ("2020-01", 10); ("2020-02", 20); ("2020-03", 30);
          ("2020-04", 40); ("2020-05", 50); ("2020-06", 60) ]%string.

(** A month text of the form YYYY-MM, or YYYY-MM-01. *)
Definition reads_as_year_month (text : string) : Prop :=
  is_Some (strptime Fmt_Ym text)
  ∨ ∃ d, strptime Fmt_Ymd text = Some d ∧ date_day d = 1.

(** Every cell of the column is missing or fits the format. *)
Definition fits_format (fmt : DateFormat) (column : list (option string))
    : Prop :=
  Forall (λ cell, match cell with
                  | None => True
                  | Some text => is_Some (strptime fmt text)
                  end) column.

(** A flow table whose month is a full date in the middle of a month. *)
Definition mid_month_flows : list FlowLine :=
  [ {| line_country_from := "AA"; line_country_to := "BB";
       line_migration_month := "2020-01-15"; line_num_migrants := 5 |} ].

(** What [sort_by] needs of a comparison to give an ordered result. *)
Definition leb_total {A} (le : A → A → bool) : Prop :=
  ∀ x y, le x y = true ∨ le y x = true.

Definition leb_trans {A} (le : A → A → bool) : Prop :=
  ∀ x y z, le x y = true → le y z = true → le x z = true.

Definition leb_antisym {A} (le : A → A → bool) : Prop :=
  ∀ x y, le x y = true → le y x = true → x = y.





(** The three country tables and the three name columns, by kind. *)
Definition kind_country (idx : HierarchyIndex) (k : Kind)
    : gmap string (option code) :=
  match k with
  | Region => country_to_region idx
  | Subregion => country_to_subregion idx
  | Intermediate => country_to_intermediate idx
  end.

Definition kind_name (k : Kind) (row : M49Row) : option string :=
  match k with
  | Region => region_name row
  | Subregion => subregion_name row
  | Intermediate => intermediate_name row
  end.

(** The code of a kind on the origin and on the destination of a record. *)
Definition kind_from (k : Kind) (r : FlowRecord) : option code :=
  match k with
  | Region => region_from r
  | Subregion => subregion_from r
  | Intermediate => intermediate_from r
  end.

Definition kind_to (k : Kind) (r : FlowRecord) : option code :=
  match k with
  | Region => region_to r
  | Subregion => subregion_to r
  | Intermediate => intermediate_to r
  end.

(** The code the classification table gives a country cell: that of the last
    row with the cell's country code. *)
Definition classified (rows : list M49Row) (k : Kind) (cell : option string)
    : option code :=
  iso ← cell;
  row ← last (filter (λ row, iso_alpha2 row = Some iso) rows);
  kind_code k row.

(** The keys of the net-flow view: the corridors and years with records in
    one direction or the other, in key order. *)
Definition net_keys (df : list FlowRecord) : list (string * string * Z) :=
  Frame.sort_by Frame.key_leb
    (remove_dups ((outbound df).*1 ++ (inbound df).*1)).

(** The all-time total of a corridor, and the corridors of a frame: the
    pairs of an origin and a destination that some record carries. *)
Definition corridor_total (df : list FlowRecord) (c : string * string) : Z :=
  Frame.sum (num_migrants <$>
    filter (λ r, country_from r = Some c.1 ∧ country_to r = Some c.2) df).

Definition corridors (df : list FlowRecord) : list (string * string) :=
  remove_dups (omap (λ r, key2 (country_from r) (country_to r)) df).

(** The annual total a row of the ranking carries. *)
Definition rk_entry (a : RankRow) : string * string * Z * Z :=
  (rk_country_from a, rk_country_to a, rk_year a, rk_num_migrants a).

(** The mean of the migrants of the records of a corridor in a season; 0
    when there is no such record. *)
Definition season_mean (df : list FlowRecord) (f t : string) (s : Season)
    : Q :=
  default 0%Q
    (Frame.mean (num_migrants <$>
       filter (λ r, country_from r = Some f ∧ country_to r = Some t
                    ∧ season r = Some s) df)).

(** The migrants of the records from [a] to [b] in month [m], for two
    columns of the store giving the origin and the destination. *)
Definition month_sum {A B} `{EqDecision A, EqDecision B}
    (origin : FlowRecord → option A) (dest : FlowRecord → option B)
    (df : list FlowRecord) (a : A) (b : B) (m : string) : Z :=
  Frame.sum (num_migrants <$>
    filter (λ r, origin r = Some a ∧ dest r = Some b
                 ∧ migration_month r = Some m) df).

(** The records of a corridor in a quarter of a year. *)
Definition quarter_records (df : list FlowRecord) (f t : string) (y q : Z)
    : list FlowRecord :=
  filter (λ r, country_from r = Some f ∧ country_to r = Some t
               ∧ year r = Some y ∧ quarter r = Some q) df.

(** The columns of the seasonal pivot: the seasons of the grouped means, in
    the order of their names. *)
Definition season_columns (df : list FlowRecord) : list Season :=
  Frame.sort_by Frame.key_leb
    (remove_dups
       (Frame.groupby_mean
          (λ r, key3 (country_from r) (country_to r) (season r))
          num_migrants df).*1.*2).

(** No name held by a name table is the empty string. *)
Definition names_ok (names : gmap code (option string)) : Prop :=
  ∀ c, names !! c ≠ Some (Some "").

(** The example of the specification: one classified country, [CC], and
    one flow in each direction between [CC] and [XX] in January 2020. *)
Definition example_m49 : list M49Line :=
  [ {| line_iso2 := "CC";
       line_region_code := "2"; line_region_name := "Region2";
       line_subregion_code := "21"; line_subregion_name := "Sub21";
       line_intermediate_code := ""; line_intermediate_name := "" |} ].

Definition example_flows : list FlowLine :=
  [ {| line_country_from := "CC"; line_country_to := "XX";
       line_migration_month := "2020-01"; line_num_migrants := 100 |};
    {| line_country_from := "XX"; line_country_to := "CC";
       line_migration_month := "2020-01"; line_num_migrants := 40 |} ].

(** A month cell of the form YYYY-MM. *)
Definition year_month (l : FlowLine) : Prop :=
  is_Some (strptime Fmt_Ym (line_migration_month l)).

Definition convert_flows : Csv :=
  {| csv_columns := sample_columns; csv_lines := example_flows |}.

(** A classification table whose row gives a region code without a name. *)
Definition unnamed_m49 : list M49Line :=
  [ {| line_iso2 := "CC";
       line_region_code := "2"; line_region_name := "";
       line_subregion_code := "21"; line_subregion_name := "Sub21";
       line_intermediate_code := ""; line_intermediate_name := "" |} ].

(** The record frame of a processor built from the two tables; empty if
    loading raises. *)
Definition loaded_df (m49 : list M49Line) (flows : list FlowLine)
    : list FlowRecord :=
  match init m49 flows with
  | inr processor => df processor
  | inl _ => []
  end.

(** * Properties *)

(** ** Sorting and grouping *)

Section FrameFacts.
Import Frame.

Lemma insert_by_Permutation {A} (le : A → A → bool) x l :
  insert_by le x l ≡ₚ x :: l.
Proof.
  induction l as [|y l IH]; simpl; [done|].
  destruct (le x y); [done|].
  rewrite IH. apply Permutation_swap.
Qed.

Lemma sort_by_Permutation {A} (le : A → A → bool) l : sort_by le l ≡ₚ l.
Proof.
  induction l as [|x l IH]; simpl; [done|].
  by rewrite insert_by_Permutation, IH.
Qed.

Lemma elem_of_sort_by {A} (le : A → A → bool) l x :
  x ∈ sort_by le l ↔ x ∈ l.
Proof. by rewrite sort_by_Permutation. Qed.

Lemma length_sort_by {A} (le : A → A → bool) l :
  length (sort_by le l) = length l.
Proof. by rewrite sort_by_Permutation. Qed.

Lemma NoDup_sort_by {A} (le : A → A → bool) l :
  NoDup l → NoDup (sort_by le l).
Proof. by rewrite sort_by_Permutation. Qed.

Lemma filter_keep_all {A} (P : A → Prop) `{∀ x, Decision (P x)}
    (l : list A) :
  (∀ x, x ∈ l → P x) → filter P l = l.
Proof.
  induction l as [|x l IH]; intros Hall; [done|].
  rewrite filter_cons_True by (apply Hall; left).
  f_equal. apply IH. intros y Hy. apply Hall. by right.
Qed.

Lemma filter_drop_all {A} (P : A → Prop) `{∀ x, Decision (P x)}
    (l : list A) :
  (∀ x, x ∈ l → ¬ P x) → filter P l = [].
Proof.
  induction l as [|x l IH]; intros Hall; [done|].
  rewrite filter_cons_False by (apply Hall; left).
  apply IH. intros y Hy. apply Hall. by right.
Qed.

(** Rows that carry their key: filtering a concatenation of keyed blocks by
    one key gives that key's block. *)
Lemma filter_mjoin_keyed {K B} `{EqDecision K}
    (body : K → list B) (proj : B → K) (ks : list K) (k0 : K) :
  NoDup ks →
  (∀ k b, b ∈ body k → proj b = k) →
  filter (λ b, proj b = k0) (mjoin (body <$> ks))
  = if decide (k0 ∈ ks) then body k0 else [].
Proof.
  intros Hnd Hkey. induction Hnd as [|k ks Hk Hnd IH].
  - rewrite decide_False; [done|]. apply not_elem_of_nil.
  - rewrite fmap_cons.
    change (mjoin (body k :: (body <$> ks)))
      with (body k ++ mjoin (body <$> ks)).
    rewrite filter_app, IH.
    destruct (decide (k = k0)) as [->|Hne].
    + rewrite (filter_keep_all _ (body k0)) by eauto.
      rewrite (decide_False (P := k0 ∈ ks)) by done.
      rewrite (decide_True (P := k0 ∈ k0 :: ks)) by left.
      by rewrite app_nil_r.
    + rewrite (filter_drop_all _ (body k)).
      * destruct (decide (k0 ∈ ks)) as [Hin|Hin].
        -- by rewrite (decide_True (P := k0 ∈ k :: ks)) by (by right).
        -- rewrite (decide_False (P := k0 ∈ k :: ks)); [done|].
           intros [->|?]%elem_of_cons; done.
      * intros b Hb Hp. apply Hkey in Hb. congruence.
Qed.

Lemma join_singletons {A B} (g : A → B) (l : list A) :
  mjoin ((λ k, [g k]) <$> l) = g <$> l.
Proof. induction l; simpl; [done|]. by f_equal. Qed.

Lemma filter_fmap_keyed {K B} `{EqDecision K}
    (g : K → B) (proj : B → K) (ks : list K) (k0 : K) :
  NoDup ks →
  (∀ k, proj (g k) = k) →
  filter (λ b, proj b = k0) (g <$> ks)
  = if decide (k0 ∈ ks) then [g k0] else [].
Proof.
  intros Hnd Hkey.
  pose proof (filter_mjoin_keyed (λ k, [g k]) proj ks k0 Hnd) as H.
  rewrite join_singletons in H. apply H.
  intros k b Hb. apply list_elem_of_singleton in Hb as ->. apply Hkey.
Qed.

Section Groupby.
Context {R K : Type} `{EqDecision K, KeyOrd K}.
Variable key : R → option K.
Variable df : list R.

Lemma NoDup_group_keys : NoDup (group_keys key df).
Proof. apply NoDup_sort_by, NoDup_remove_dups. Qed.

Lemma elem_of_group_keys k :
  k ∈ group_keys key df ↔ ∃ r, r ∈ df ∧ key r = Some k.
Proof.
  unfold group_keys.
  by rewrite elem_of_sort_by, elem_of_remove_dups, list_elem_of_omap.
Qed.

Lemma groupby_sum_eq (col : R → Z) :
  groupby_sum key col df
  = (λ k, (k, sum (col <$> filter (λ r, key r = Some k) df)))
      <$> group_keys key df.
Proof.
  unfold groupby_sum, groupby. by rewrite <-list_fmap_compose.
Qed.

Lemma groupby_sum_keys (col : R → Z) :
  (groupby_sum key col df).*1 = group_keys key df.
Proof.
  rewrite groupby_sum_eq, <-list_fmap_compose.
  induction (group_keys key df) as [|k ks IH]; [done|].
  rewrite fmap_cons. by f_equal.
Qed.

(** The rows of a grouped sum with a given key: one, carrying the sum
    over the rows of the frame with that key, if there is such a row. *)
Lemma groupby_sum_filter (col : R → Z) (k : K) :
  filter (λ a, a.1 = k) (groupby_sum key col df)
  = if decide (k ∈ group_keys key df)
    then [(k, sum (col <$> filter (λ r, key r = Some k) df))]
    else [].
Proof.
  rewrite groupby_sum_eq.
  apply (filter_fmap_keyed
           (λ k, (k, sum (col <$> filter (λ r, key r = Some k) df))) fst).
  - apply NoDup_group_keys.
  - done.
Qed.
End Groupby.
End FrameFacts.

Section SortBy.
Import Frame.
Context {A : Type} (le : A → A → bool).
Hypothesis le_total : ∀ x y, le x y = true ∨ le y x = true.

Lemma HdRel_insert_by x y l :
  le y x = true → HdRel (λ a b, le a b = true) y l →
  HdRel (λ a b, le a b = true) y (insert_by le x l).
Proof.
  intros Hyx Hhd. destruct l as [|z l]; simpl; [by constructor|].
  destruct (le x z); constructor; [done|]. by inversion Hhd.
Qed.

Lemma Sorted_insert_by x l :
  Sorted (λ a b, le a b = true) l →
  Sorted (λ a b, le a b = true) (insert_by le x l).
Proof.
  induction 1 as [|y l Hsorted IH Hhd]; simpl.
  - by repeat constructor.
  - destruct (le x y) eqn:Hxy.
    + constructor; [by constructor|by constructor].
    + constructor; [done|]. apply HdRel_insert_by; [|done].
      destruct (le_total x y); congruence.
Qed.

Lemma Sorted_sort_by l : Sorted (λ a b, le a b = true) (sort_by le l).
Proof.
  induction l as [|x l IH]; simpl; [constructor|].
  by apply Sorted_insert_by.
Qed.
End SortBy.

Section MergeFacts.
Import Frame.

Lemma filter_fmap {A B} (f : A → B) (P : B → Prop) `{∀ x, Decision (P x)}
    (l : list A) :
  filter P (f <$> l) = f <$> filter (λ a, P (f a)) l.
Proof.
  induction l as [|a l IH]; [done|].
  rewrite fmap_cons, !filter_cons, IH. by destruct (decide (P (f a))).
Qed.

Lemma sum_nil_filter {R} (P : R → Prop) `{∀ x, Decision (P x)}
    (col : R → Z) (l : list R) :
  (∀ r, r ∈ l → ¬ P r) → sum (col <$> filter P l) = 0.
Proof. intros Hno. by rewrite filter_drop_all. Qed.

(** The rows of an outer merge with a given key. *)
Lemma merge_outer_filter {K A B} `{EqDecision K, KeyOrd K}
    (left : list (K * A)) (right : list (K * B)) (k0 : K) :
  filter (λ row, row.1.1 = k0) (merge_outer left right)
  = if decide (k0 ∈ left.*1 ++ right.*1) then
      let la := filter (λ a, a.1 = k0) left in
      let rb := filter (λ b, b.1 = k0) right in
      match la, rb with
      | [], _ => (λ b, (k0, None, Some b.2)) <$> rb
      | _, [] => (λ a, (k0, Some a.2, None)) <$> la
      | _, _ => a ← la; (λ b, (k0, Some a.2, Some b.2)) <$> rb
      end
    else [].
Proof.
  unfold merge_outer.
  rewrite (filter_mjoin_keyed _ (λ row, row.1.1)).
  - destruct (decide (k0 ∈ left.*1 ++ right.*1)) as [Hin|Hin].
    + rewrite decide_True; [done|].
      by rewrite elem_of_sort_by, elem_of_remove_dups.
    + rewrite decide_False; [done|].
      by rewrite elem_of_sort_by, elem_of_remove_dups.
  - apply NoDup_sort_by, NoDup_remove_dups.
  - intros k b.
    destruct (filter (λ a, a.1 = k) left) as [|a la];
      destruct (filter (λ b, b.1 = k) right) as [|b' rb].
    + by intros ?%elem_of_nil.
    + by intros (? & -> & _)%list_elem_of_fmap.
    + by intros (? & -> & _)%list_elem_of_fmap.
    + intros (? & (? & -> & _)%list_elem_of_fmap & _)%list_elem_of_bind.
      done.
Qed.
End MergeFacts.

(** ** Country-to-country flows *)

(** C7: the country-to-country view is a projection of the record frame:
    row [i] is record [i] reduced to origin, destination, month and count, so
    the view has as many rows as there are records, and the artifact written
    holds that many. *)
Theorem country_to_country_projection (self : Processor) :
  length (generate_country_to_country (df self)) = length (df self)
  ∧ (∀ i, generate_country_to_country (df self) !! i
          = (λ r, (country_from r, country_to r, migration_month r,
                   num_migrants r)) <$> df self !! i)
  ∧ (∀ log, emit_country_to_country self log
            = inr ("flows_country_to_country_monthly.json",
                   log ++ [("flows_country_to_country_monthly.json",
                            length (df self))])).
Proof.
  unfold generate_country_to_country. split_and!.
  - apply length_fmap.
  - intros i. apply list_lookup_fmap.
  - intros log. unfold emit_country_to_country, to_json.
    unfold generate_country_to_country. by rewrite length_fmap.
Qed.

(** ** Net flows *)

Section NetFlows.
Import Frame.
Variable df : list FlowRecord.

Lemma key3_Some {A B C} (a : option A) (b : option B) (c : option C) x y z :
  key3 a b c = Some (x, y, z) ↔ a = Some x ∧ b = Some y ∧ c = Some z.
Proof.
  destruct a, b, c; simpl; split; try (intros (? & ? & ?)); try done;
    intros; simplify_eq; done.
Qed.

Lemma outbound_key f t y :
  (f, t, y) ∈ (outbound df).*1 ↔ has_flow df f t y.
Proof.
  unfold outbound, has_flow. rewrite groupby_sum_keys, elem_of_group_keys.
  by setoid_rewrite key3_Some.
Qed.

Lemma inbound_key f t y :
  (f, t, y) ∈ (inbound df).*1 ↔ has_flow df t f y.
Proof.
  unfold inbound, has_flow. rewrite groupby_sum_keys, elem_of_group_keys.
  setoid_rewrite key3_Some.
  split; intros (r & ? & ? & ? & ?); by exists r.
Qed.

Lemma flow_sum_absent a b y : ¬ has_flow df a b y → flow_sum df a b y = 0.
Proof.
  intros Hno. apply sum_nil_filter. intros r Hr Hk.
  apply key3_Some in Hk as (? & ? & ?). apply Hno. by exists r.
Qed.

Lemma outbound_filter f t y :
  filter (λ a, a.1 = (f, t, y)) (outbound df)
  = if decide (has_flow df f t y)
    then [((f, t, y), flow_sum df f t y)] else [].
Proof.
  unfold outbound at 1. rewrite groupby_sum_filter.
  rewrite <-(groupby_sum_keys _ _ num_migrants).
  fold (outbound df).
  destruct (decide (has_flow df f t y)) as [Hf|Hf].
  - by rewrite decide_True by by apply outbound_key.
  - by rewrite decide_False by by rewrite outbound_key.
Qed.

Lemma inbound_filter f t y :
  filter (λ a, a.1 = (f, t, y)) (inbound df)
  = if decide (has_flow df t f y)
    then [((f, t, y), flow_sum df t f y)] else [].
Proof.
  unfold inbound at 1. rewrite groupby_sum_filter.
  rewrite <-(groupby_sum_keys _ _ num_migrants).
  fold (inbound df).
  assert (filter (λ r, key3 (country_to r) (country_from r) (year r)
                       = Some (f, t, y)) df
          = filter (λ r, key3 (country_from r) (country_to r) (year r)
                         = Some (t, f, y)) df) as ->.
  { apply list_filter_iff. intros r. rewrite !key3_Some. tauto. }
  fold (flow_sum df t f y).
  destruct (decide (has_flow df t f y)) as [Hf|Hf].
  - by rewrite decide_True by by apply inbound_key.
  - by rewrite decide_False by by rewrite inbound_key.
Qed.

Lemma net_flows_filter f t y :
  filter (λ row, nf_key row = (f, t, y)) (generate_net_flows df)
  = if decide (has_flow df f t y ∨ has_flow df t f y)
    then [net_row df f t y] else [].
Proof.
  unfold generate_net_flows. rewrite filter_fmap.
  erewrite (list_filter_iff _ (λ row, row.1.1 = (f, t, y))); last first.
  { by intros [[[[a b] c] o] i]. }
  rewrite merge_outer_filter, outbound_filter, inbound_filter.
  destruct (decide (has_flow df f t y)) as [Ho|Ho],
           (decide (has_flow df t f y)) as [Hi|Hi].
  - rewrite (decide_True (P := _ ∈ _ ++ _))
      by (apply elem_of_app; left; by apply outbound_key).
    by rewrite (decide_True (P := _ ∨ _)) by tauto.
  - rewrite (decide_True (P := _ ∈ _ ++ _))
      by (apply elem_of_app; left; by apply outbound_key).
    rewrite (decide_True (P := _ ∨ _)) by tauto.
    simpl. unfold net_row. rewrite (flow_sum_absent t f y) by done.
    by rewrite Z.sub_0_l.
  - rewrite (decide_True (P := _ ∈ _ ++ _))
      by (apply elem_of_app; right; by apply inbound_key).
    rewrite (decide_True (P := _ ∨ _)) by tauto.
    simpl. unfold net_row. rewrite (flow_sum_absent f t y) by done.
    by rewrite Z.sub_0_r, Z.add_0_r.
  - rewrite (decide_False (P := _ ∈ _ ++ _))
      by (rewrite elem_of_app, outbound_key, inbound_key; tauto).
    by rewrite (decide_False (P := _ ∨ _)) by tauto.
Qed.
End NetFlows.

(** The annual totals: one row per corridor and year with records, holding
    the sum of the migrants of these records. *)
Lemma annual_totals_elem (df : list FlowRecord) (f t : string) (y total : Z) :
  (f, t, y, total) ∈ annual_totals df
  ↔ has_flow df f t y ∧ total = flow_sum df f t y.
Proof.
  unfold annual_totals. rewrite groupby_sum_eq, list_elem_of_fmap. split.
  - intros (k & Heq & Hk). simplify_eq.
    apply elem_of_group_keys in Hk as (r & Hr & Hkey).
    apply key3_Some in Hkey as (? & ? & ?). split; [by exists r|done].
  - intros [(r & Hr & Hf & Ht & Hy) ->]. exists (f, t, y). split; [done|].
    apply elem_of_group_keys. exists r. split; [done|]. by apply key3_Some.
Qed.

(** The rows of the net-flow view on the example of the specification. *)
Lemma net_flows_example_rows :
  generate_net_flows (loaded_df example_m49 example_flows)
  = [ {| nf_country_from := "CC"; nf_country_to := "XX"; nf_year := 2020;
         net_flow := -60; gross_flow := 140 |};
      {| nf_country_from := "XX"; nf_country_to := "CC"; nf_year := 2020;
         net_flow := 60; gross_flow := 140 |} ].
Proof. vm_compute. reflexivity. Qed.

(** C1 (as the code has it): on the example of the specification the tables
    load and the net-flow view has exactly one row for year 2020 and the
    pair (CC, XX); its net flow is inbound minus outbound, 40 - 100 = -60,
    and its gross flow is 140. *)
Theorem net_flows_example :
  (∃ processor, init example_m49 example_flows = inr processor)
  ∧ filter (λ row, nf_key row = ("CC", "XX", 2020))
      (generate_net_flows (loaded_df example_m49 example_flows))
    = [ {| nf_country_from := "CC"; nf_country_to := "XX"; nf_year := 2020;
           net_flow := -60; gross_flow := 140 |} ].
Proof.
  split.
  - eexists. vm_compute. reflexivity.
  - rewrite net_flows_example_rows. vm_compute. reflexivity.
Qed.

(** C1 as stated fails: no row of the view for year 2020 and the pair
    (CC, XX) has net flow 60 and gross flow 140. *)
Lemma net_flows_example_not_60 :
  ¬ ∃ row, row ∈ generate_net_flows (loaded_df example_m49 example_flows)
           ∧ nf_key row = ("CC", "XX", 2020)
           ∧ net_flow row = 60 ∧ gross_flow row = 140.
Proof.
  intros (row & Hin & Hkey & Hnet & _).
  rewrite net_flows_example_rows in Hin.
  apply elem_of_cons in Hin as [->|Hin]; [done|].
  apply list_elem_of_singleton in Hin as ->. done.
Qed.

(** C2: for a corridor and a year with a record in either direction, the
    net-flow view has exactly one row with that key; its net flow is the
    inbound sum (what moved the other way) minus the outbound sum and its
    gross flow is their sum, a direction without records counting as 0. *)
Theorem net_flows_outer_join (df : list FlowRecord) (f t : string) (y : Z) :
  has_flow df f t y ∨ has_flow df t f y →
  filter (λ row, nf_key row = (f, t, y)) (generate_net_flows df)
  = [ {| nf_country_from := f; nf_country_to := t; nf_year := y;
         net_flow := flow_sum df t f y - flow_sum df f t y;
         gross_flow := flow_sum df t f y + flow_sum df f t y |} ].
Proof.
  intros Hflow. rewrite net_flows_filter. by rewrite decide_True.
Qed.

Lemma net_flows_outer_join_witness :
  let df := loaded_df example_m49 example_flows in
  (has_flow df "XX" "CC" 2020 ∨ has_flow df "CC" "XX" 2020)
  ∧ filter (λ row, nf_key row = ("XX", "CC", 2020)) (generate_net_flows df)
    = [ {| nf_country_from := "XX"; nf_country_to := "CC"; nf_year := 2020;
           net_flow := flow_sum df "CC" "XX" 2020 - flow_sum df "XX" "CC" 2020;
           gross_flow :=
             flow_sum df "CC" "XX" 2020 + flow_sum df "XX" "CC" 2020 |} ].
Proof.
  assert (has_flow (loaded_df example_m49 example_flows) "XX" "CC" 2020)
    as Hflow.
  { apply (bool_decide_unpack _). vm_compute. exact I. }
  split; [by left|].
  apply (net_flows_outer_join _ "XX" "CC" 2020). by left.
Defined.

(** C10: the net-flow view is antisymmetric: with a row for (A, B, year) it
    has exactly one row for (B, A, year), with the opposite net flow and the
    same gross flow. *)
Theorem net_flows_antisymmetric (df : list FlowRecord) (row : NetFlowRow) :
  row ∈ generate_net_flows df →
  filter (λ row', nf_key row'
                  = (nf_country_to row, nf_country_from row, nf_year row))
    (generate_net_flows df)
  = [ {| nf_country_from := nf_country_to row;
         nf_country_to := nf_country_from row;
         nf_year := nf_year row;
         net_flow := - net_flow row;
         gross_flow := gross_flow row |} ].
Proof.
  destruct row as [f t y n g]. intros Hin. simpl.
  assert ({| nf_country_from := f; nf_country_to := t; nf_year := y;
             net_flow := n; gross_flow := g |}
          ∈ filter (λ row', nf_key row' = (f, t, y)) (generate_net_flows df))
    as Hrow by by apply list_elem_of_filter.
  rewrite net_flows_filter in Hrow.
  destruct (decide _) as [Hflow|]; [|by apply elem_of_nil in Hrow].
  apply list_elem_of_singleton in Hrow. unfold net_row in Hrow.
  injection Hrow as -> ->.
  rewrite net_flows_filter, decide_True by tauto.
  unfold net_row. do 2 f_equal; lia.
Qed.

Lemma net_flows_antisymmetric_witness :
  let df := loaded_df example_m49 example_flows in
  let row := {| nf_country_from := "CC"; nf_country_to := "XX";
                nf_year := 2020; net_flow := -60; gross_flow := 140 |} in
  row ∈ generate_net_flows df
  ∧ filter (λ row', nf_key row' = ("XX", "CC", 2020)) (generate_net_flows df)
    = [ {| nf_country_from := "XX"; nf_country_to := "CC"; nf_year := 2020;
           net_flow := 60; gross_flow := 140 |} ].
Proof.
  assert ({| nf_country_from := "CC"; nf_country_to := "XX"; nf_year := 2020;
             net_flow := -60; gross_flow := 140 |}
          ∈ generate_net_flows (loaded_df example_m49 example_flows)) as Hin.
  { vm_compute. left. }
  split; [exact Hin|].
  exact (net_flows_antisymmetric _ _ Hin).
Defined.

(** ** The hierarchy index *)

Section Names.

Lemma read_cell_nonempty text s : read_cell text = Some s → s ≠ "".
Proof.
  unfold read_cell. destruct (decide (text ∈ na_values)) as [|Hna]; [done|].
  intros [= <-] ->. apply Hna. unfold na_values. left.
Qed.

Lemma fallback_label_nonempty k c : fallback_label k c ≠ "".
Proof. by destruct k. Qed.

Lemma store_name_ok c text names :
  names_ok names → names_ok (store_name c (read_cell text) names).
Proof.
  intros Hok c'. destruct c as [c|]; simpl; [|apply Hok].
  destruct (decide (c = c')) as [->|Hne].
  - rewrite lookup_insert_eq. intros [= Hname].
    by apply read_cell_nonempty in Hname.
  - rewrite lookup_insert_ne by done. apply Hok.
Qed.

Lemma add_m49_row_ok idx line k :
  names_ok (kind_names idx k) →
  names_ok (kind_names (add_m49_row idx (read_m49_line line)) k).
Proof.
  intros Hok. unfold add_m49_row.
  destruct (iso_alpha2 (read_m49_line line)); [|done].
  destruct k; simpl; by apply store_name_ok.
Qed.

Lemma load_regional_mappings_ok lines k :
  names_ok (kind_names (load_regional_mappings (read_m49 lines)) k).
Proof.
  unfold load_regional_mappings, read_m49.
  assert (names_ok (kind_names empty_index k)) as Hinit.
  { intros c. destruct k; simpl; by rewrite lookup_empty. }
  revert Hinit. generalize empty_index.
  induction lines as [|line lines IH]; intros idx Hok; [done|].
  rewrite fmap_cons. simpl. apply IH. by apply add_m49_row_ok.
Qed.
(** The code of a listed country has an entry, so that [nameFor] gives the
    name cell stored with it. *)
Lemma add_m49_row_entry idx row k c :
  is_Some (kind_names idx k !! c)
  ∨ (is_Some (iso_alpha2 row) ∧ kind_code k row = Some c) →
  is_Some (kind_names (add_m49_row idx row) k !! c).
Proof.
  unfold add_m49_row. intros [Hentry|[[iso2 Hiso] Hcode]].
  - destruct (iso_alpha2 row); [|done].
    destruct k; simpl in *;
      match goal with
      | |- context [store_name ?oc _ _] =>
          destruct oc as [c0|]; simpl; [|done];
          destruct (decide (c0 = c)) as [->|];
          [by rewrite lookup_insert_eq|by rewrite lookup_insert_ne]
      end.
  - rewrite Hiso. destruct k; simpl in *; rewrite Hcode; simpl;
      by rewrite lookup_insert_eq.
Qed.

Lemma listed_code_has_entry lines row k c :
  row ∈ read_m49 lines → is_Some (iso_alpha2 row) →
  kind_code k row = Some c →
  is_Some (kind_names (load_regional_mappings (read_m49 lines)) k !! c).
Proof.
  unfold load_regional_mappings. intros Hrow Hiso Hcode.
  assert (∀ rows idx,
            is_Some (kind_names idx k !! c) ∨ row ∈ rows →
            is_Some (kind_names (foldl add_m49_row idx rows) k !! c))
    as Hfold.
  { induction rows as [|r rows IH]; intros idx [Hentry|Hin]; simpl.
    - done.
    - by apply elem_of_nil in Hin.
    - apply IH. left. apply add_m49_row_entry. by left.
    - apply elem_of_cons in Hin as [<-|Hin].
      + apply IH. left. apply add_m49_row_entry. by right.
      + apply IH. by right. }
  apply Hfold. by right.
Qed.
End Names.

(** Whatever classification table the index was built from, [nameFor]
    never gives the empty string. *)
Lemma nameFor_never_empty (lines : list M49Line) (k : Kind) (c : code) :
  nameFor (load_regional_mappings (read_m49 lines)) k c ≠ Some "".
Proof.
  unfold nameFor.
  destruct (kind_names _ k !! c) as [name|] eqn:Hname; simpl.
  - intros ->. by apply (load_regional_mappings_ok lines k c).
  - intros [= Hlabel]. by apply (fallback_label_nonempty k c).
Qed.

(** C8: on a classification table whose only row for region code 2 has an
    empty name cell, no name is recorded for the code, yet the missing value
    of the cell is stored under it: [nameFor] then returns that missing
    value, which is neither a recorded name nor the label Region_2, and the
    region-to-country view shows the row of the region without a name. *)
Theorem nameFor_unnamed_code_missing :
  let idx := load_regional_mappings (read_m49 unnamed_m49) in
  (∀ row, row ∈ read_m49 unnamed_m49 → region_name row = None)
  ∧ region_names idx !! "2" = Some None
  ∧ nameFor idx Region "2" = None
  ∧ nameFor idx Region "2" ≠ Some (fallback_label Region "2")
  ∧ generate_region_to_country idx (loaded_df unnamed_m49 example_flows)
    = [(None, "XX", "2020-01", 100)].
Proof.
  assert (nameFor (load_regional_mappings (read_m49 unnamed_m49)) Region "2"
          = None) as Hname by (by vm_compute).
  cbv zeta. split; [|split; [|split; [|split]]].
  - intros row Hrow. apply list_elem_of_singleton in Hrow as ->.
    by vm_compute.
  - by vm_compute.
  - exact Hname.
  - by rewrite Hname.
  - by vm_compute.
Qed.

(** ** Corridor rankings *)

Section Rankings.
Import Frame.

Lemma elem_of_unique {A} `{EqDecision A} (l : list A) x :
  x ∈ unique l ↔ x ∈ l.
Proof.
  induction l as [|y l IH]; simpl; [done|].
  rewrite !elem_of_cons, list_elem_of_filter, IH.
  destruct (decide (x = y)); tauto.
Qed.

Lemma NoDup_unique {A} `{EqDecision A} (l : list A) : NoDup (unique l).
Proof.
  induction l as [|y l IH]; simpl; constructor.
  - rewrite list_elem_of_filter. tauto.
  - by apply NoDup_filter.
Qed.

(** Dense ranks: the next value down in the column is one rank further. *)
Lemma rank_dense_desc_next (col : list Z) (v v' : Z) :
  v ∈ col → v' < v → (∀ w, w ∈ col → ¬ (v' < w < v)) →
  rank_dense_desc col v' = rank_dense_desc col v + 1.
Proof.
  intros Hv Hlt Hgap. unfold rank_dense_desc.
  assert (remove_dups (filter (λ w, v' < w) col)
          ≡ₚ v :: remove_dups (filter (λ w, v < w) col)) as ->.
  { apply NoDup_Permutation.
    - apply NoDup_remove_dups.
    - constructor; [|apply NoDup_remove_dups].
      rewrite elem_of_remove_dups, list_elem_of_filter. lia.
    - intros w. rewrite elem_of_cons, !elem_of_remove_dups,
        !list_elem_of_filter.
      split.
      + intros [Hw Hin]. specialize (Hgap w Hin).
        destruct (decide (w = v)); [by left|right]. split; [lia|done].
      + intros [->|[Hw Hin]]; [done|]. split; [lia|done]. }
  simpl. lia.
Qed.

Lemma rank_year_year annual y a : a ∈ rank_year annual y → rk_year a = y.
Proof.
  unfold rank_year, year_data.
  intros (r & -> & Hr)%list_elem_of_fmap.
  by apply list_elem_of_filter in Hr as [? _].
Qed.

(** The rows of the ranking for one year carry the totals of that year. *)
Lemma rankings_year_totals df rows y :
  generate_corridor_rankings df = inr rows →
  y ∈ (annual_totals df).*1.*2 →
  year_totals rows y = (year_data (annual_totals df) y).*2.
Proof.
  unfold generate_corridor_rankings. intros Hgen Hy.
  assert (rows = mjoin (rank_year (annual_totals df)
                          <$> unique (annual_totals df).*1.*2)) as ->.
  { destruct (rank_year _ <$> _); by simplify_eq. }
  unfold year_totals.
  rewrite (filter_mjoin_keyed _ rk_year).
  - rewrite decide_True by by apply elem_of_unique.
    unfold rank_year. rewrite <-list_fmap_compose.
    apply list_fmap_ext. done.
  - apply NoDup_unique.
  - intros. by eapply rank_year_year.
Qed.

Lemma rankings_row df rows a :
  generate_corridor_rankings df = inr rows → a ∈ rows →
  rank a = rank_dense_desc (year_totals rows (rk_year a)) (rk_num_migrants a)
  ∧ percentile a
    = (rank_pct (year_totals rows (rk_year a)) (rk_num_migrants a) * 100)%Q
  ∧ rk_num_migrants a ∈ year_totals rows (rk_year a).
Proof.
  intros Hgen Ha.
  pose proof Hgen as Hrows. unfold generate_corridor_rankings in Hrows.
  assert (rows = mjoin (rank_year (annual_totals df)
                          <$> unique (annual_totals df).*1.*2)) as Heq.
  { destruct (rank_year _ <$> _); by simplify_eq. }
  clear Hrows. rewrite Heq in Ha.
  apply list_elem_of_join in Ha as (block & Ha & Hblock).
  apply list_elem_of_fmap in Hblock as (y & -> & Hy).
  rewrite elem_of_unique in Hy.
  pose proof (rank_year_year _ _ _ Ha) as Hyear.
  rewrite Hyear, (rankings_year_totals df rows y Hgen Hy).
  unfold rank_year in Ha. apply list_elem_of_fmap in Ha as (r & -> & Hr).
  simpl. split_and!; [done..|]. by apply list_elem_of_fmap_2.
Qed.
End Rankings.

(** A row of the ranking is a corridor and year with records, with the
    total of these records. *)
Lemma rankings_row_total (df : list FlowRecord) (rows : list RankRow)
    (a : RankRow) :
  generate_corridor_rankings df = inr rows → a ∈ rows →
  has_flow df (rk_country_from a) (rk_country_to a) (rk_year a)
  ∧ rk_num_migrants a
    = flow_sum df (rk_country_from a) (rk_country_to a) (rk_year a).
Proof.
  unfold generate_corridor_rankings. intros Hgen Ha.
  assert (rows = mjoin (rank_year (annual_totals df)
                          <$> unique (annual_totals df).*1.*2)) as ->.
  { destruct (rank_year _ <$> _); by simplify_eq. }
  apply list_elem_of_join in Ha as (block & Ha & Hblock).
  apply list_elem_of_fmap in Hblock as (y & -> & _).
  unfold rank_year, year_data in Ha.
  apply list_elem_of_fmap in Ha as ([[[f t] y'] n] & -> & Hr).
  apply list_elem_of_filter in Hr as [_ Hr]. simpl.
  by apply annual_totals_elem.
Qed.

Lemma count_at_most_split (col : list Z) (v : Z) :
  count_at_most col v = count_below col v + count_equal col v.
Proof.
  unfold count_at_most, count_below, count_equal.
  induction col as [|w col IH]; [done|].
  rewrite !filter_cons.
  destruct (decide (w ≤ v)), (decide (w < v)), (decide (w = v));
    simpl length; lia.
Qed.

Lemma rank_pct_average (col : list Z) (v : Z) :
  (Frame.rank_pct col v * 100
   == (inject_Z (count_below col v) + (inject_Z (count_equal col v) + 1) / 2)
      / inject_Z (Z.of_nat (length col)) * 100)%Q.
Proof.
  unfold Frame.rank_pct, Frame.rank_average.
  fold (count_below col v). fold (count_equal col v).
  assert (inject_Z (2 * count_below col v + count_equal col v + 1) / 2
          == inject_Z (count_below col v)
             + (inject_Z (count_equal col v) + 1) / 2)%Q as ->; [|done].
  rewrite !inject_Z_plus, inject_Z_mult. field.
Qed.

(** C6: in the ranking, whose rows carry the annual totals of the corridors,
    two corridors of one year with equal totals have equal ranks; a corridor whose total is the next one down in that year
    (no total of the year lies strictly between) has the rank one greater;
    the percentile of a corridor is the average rank of its total among the
    totals of the year, [#below + (#equal + 1) / 2], over the number of
    corridors of the year, times 100, which for a total without ties is the
    fraction of the year's corridors with at most that total, times 100. *)
Theorem corridor_rankings_dense_percentile
    (df : list FlowRecord) (rows : list RankRow) (a b : RankRow) :
  generate_corridor_rankings df = inr rows →
  a ∈ rows → b ∈ rows → rk_year a = rk_year b →
  rk_num_migrants a
  = flow_sum df (rk_country_from a) (rk_country_to a) (rk_year a)
  ∧ (rk_num_migrants a = rk_num_migrants b → rank a = rank b)
  ∧ (rk_num_migrants b < rk_num_migrants a →
     (∀ c, c ∈ rows → rk_year c = rk_year a →
           ¬ (rk_num_migrants b < rk_num_migrants c < rk_num_migrants a)) →
     rank b = rank a + 1)
  ∧ (percentile a
     == (inject_Z (count_below (year_totals rows (rk_year a))
                     (rk_num_migrants a))
         + (inject_Z (count_equal (year_totals rows (rk_year a))
                        (rk_num_migrants a)) + 1) / 2)
        / inject_Z (Z.of_nat (length (year_totals rows (rk_year a)))) * 100)%Q
  ∧ (count_equal (year_totals rows (rk_year a)) (rk_num_migrants a) = 1 →
     (percentile a
      == inject_Z (count_at_most (year_totals rows (rk_year a))
                     (rk_num_migrants a))
         / inject_Z (Z.of_nat (length (year_totals rows (rk_year a)))) * 100)%Q).
Proof.
  intros Hgen Ha Hb Hyear.
  destruct (rankings_row df rows a Hgen Ha) as (Hra & Hpa & Hina).
  destruct (rankings_row df rows b Hgen Hb) as (Hrb & _ & _).
  rewrite <-Hyear in Hrb. split_and!.
  - by apply (rankings_row_total df rows a).
  - intros Heq. by rewrite Hra, Hrb, Heq.
  - intros Hlt Hgap. rewrite Hra, Hrb.
    apply rank_dense_desc_next; [done..|].
    intros w Hw. unfold year_totals in Hw.
    apply list_elem_of_fmap in Hw as (c & -> & Hc).
    apply list_elem_of_filter in Hc as [Hcy Hc]. by apply Hgap.
  - rewrite Hpa. apply rank_pct_average.
  - intros Hone. rewrite Hpa, rank_pct_average, count_at_most_split, Hone.
    rewrite inject_Z_plus. field_simplify_eq; [done|].
    intros Hzero.
    assert (length (year_totals rows (rk_year a)) ≠ 0%nat) as Hlen.
    { intros Hlen. apply length_zero_iff_nil in Hlen.
      rewrite Hlen in Hina. by apply elem_of_nil in Hina. }
    apply Hlen. unfold Qeq in Hzero. simpl in Hzero. lia.
Qed.

Lemma corridor_rankings_dense_percentile_witness :
  generate_corridor_rankings (loaded_df [] tied_flows) = inr tied_rankings
  ∧ tied_top ∈ tied_rankings ∧ tied_low ∈ tied_rankings
  ∧ rk_year tied_top = rk_year tied_low
  ∧ rank tied_low = rank tied_top + 1
  ∧ (percentile tied_top == (2 + 1 / 2) / 3 * 100)%Q.
Proof.
  assert (generate_corridor_rankings (loaded_df [] tied_flows)
          = inr tied_rankings) as Hgen by (vm_compute; reflexivity).
  assert (tied_top ∈ tied_rankings) as Ha by left.
  assert (tied_low ∈ tied_rankings) as Hb by (right; left).
  assert (rk_year tied_top = rk_year tied_low) as Hyear by reflexivity.
  destruct (corridor_rankings_dense_percentile
              _ _ _ _ Hgen Ha Hb Hyear) as (_ & _ & Hnext & Hpct & _).
  split_and!; [exact Hgen|exact Ha|exact Hb|exact Hyear|..].
  - apply Hnext; [simpl; lia|].
    intros c Hc _. unfold tied_rankings in Hc.
    repeat (apply elem_of_cons in Hc as [->|Hc]); simpl; try lia.
    by apply elem_of_nil in Hc.
  - rewrite Hpct. vm_compute. reflexivity.
Defined.

(** ** Growth rates *)

Section Columns.
Context {K : Type} (P : K → Prop) `{∀ k, Decision (P k)}.

Lemma pick_cons {V} k (ks : list K) (v : V) (col : list V) :
  pick P (k :: ks) (v :: col)
  = if decide (P k) then v :: pick P ks col else pick P ks col.
Proof.
  unfold pick. simpl. rewrite filter_cons. simpl.
  by destruct (decide (P k)).
Qed.

Lemma length_pick {V} (ks : list K) (col : list V) :
  length ks = length col → length (pick P ks col) = length (filter P ks).
Proof.
  revert col. induction ks as [|k ks IH]; intros [|v col] Hlen;
    simplify_eq/=; [done|].
  rewrite pick_cons, filter_cons.
  destruct (decide (P k)); simpl; rewrite IH; done.
Qed.

Lemma pick_zip_with {A B C} (f : A → B → C) (ks : list K)
    (a : list A) (b : list B) :
  length ks = length a → length ks = length b →
  pick P ks (zip_with f a b) = zip_with f (pick P ks a) (pick P ks b).
Proof.
  revert a b. induction ks as [|k ks IH]; intros [|x a] [|y b] Ha Hb;
    simplify_eq/=; [done|].
  rewrite !pick_cons. destruct (decide (P k)); simpl; rewrite IH; done.
Qed.

Lemma pick_self {V} (g : K → V) (ks : list K) :
  pick P ks (g <$> ks) = g <$> filter P ks.
Proof.
  induction ks as [|k ks IH]; [done|].
  rewrite fmap_cons, pick_cons, filter_cons, IH.
  by destruct (decide (P k)).
Qed.

Lemma filter_zip_with_pick {V C} (f : K → V → C) (Q : C → Prop)
    `{∀ c, Decision (Q c)} (ks : list K) (col : list V) :
  (∀ k v, Q (f k v) ↔ P k) →
  length ks = length col →
  filter Q (zip_with f ks col) = zip_with f (filter P ks) (pick P ks col).
Proof.
  intros HQ. revert col.
  induction ks as [|k ks IH]; intros [|v col] Hlen; simplify_eq/=; [done|].
  rewrite pick_cons, !filter_cons.
  destruct (decide (P k)) as [Hk|Hk].
  - rewrite decide_True by by apply HQ. simpl. by rewrite IH.
  - rewrite decide_False by by rewrite HQ. by rewrite IH.
Qed.
End Columns.

Lemma pick_fmap_keys {A K V} (h : A → K) (P : K → Prop)
    `{∀ k, Decision (P k)} (l : list A) (col : list V) :
  pick P (h <$> l) col = pick (λ a, P (h a)) l col.
Proof.
  revert col. induction l as [|a l IH]; intros [|v col]; try done.
  rewrite fmap_cons, !pick_cons, IH. done.
Qed.

Section GroupShift.
Import Frame.
Context {K V : Type} `{EqDecision K}.

Lemma length_group_shift_aux (seen rows : list (K * option V)) :
  length (group_shift_aux seen rows) = length rows.
Proof.
  revert seen. induction rows as [|[k v] rows IH]; intros seen; simpl;
    [done|]. by rewrite IH.
Qed.

Lemma length_group_shift (rows : list (K * option V)) :
  length (group_shift rows) = length rows.
Proof. apply length_group_shift_aux. Qed.

(** Within one group the shifted column is the column moved down by one
    row, the first cell being the last one seen before. *)
Lemma pick_group_shift_aux (k : K) (seen rows : list (K * option V)) :
  pick (λ k', k' = k) rows.*1 (group_shift_aux seen rows)
  = take (length (filter (λ e, e.1 = k) rows))
      (match list_find (λ e, e.1 = k) seen with
       | Some (_, (_, prev)) => prev
       | None => None
       end :: (filter (λ e, e.1 = k) rows).*2).
Proof.
  revert seen. induction rows as [|[k1 v1] rows IH]; intros seen; [done|].
  rewrite fmap_cons. cbn [group_shift_aux fst].
  rewrite pick_cons, filter_cons, IH. cbn [fst].
  destruct (decide (k1 = k)) as [->|Hne].
  - cbn [list_find]. rewrite decide_True by done. done.
  - cbn [list_find]. rewrite decide_False by done.
    destruct (list_find (λ e, e.1 = k) seen) as [[? [? ?]]|]; done.
Qed.

Lemma pick_group_shift (k : K) (ks : list K) (vals : list (option V)) :
  length ks = length vals →
  pick (λ k', k' = k) ks (group_shift (zip ks vals))
  = take (length (pick (λ k', k' = k) ks vals))
      (None :: pick (λ k', k' = k) ks vals).
Proof.
  intros Hlen.
  pose proof (pick_group_shift_aux k [] (zip ks vals)) as Hpick.
  rewrite fst_zip in Hpick by lia.
  unfold group_shift. rewrite Hpick. unfold pick.
  by rewrite length_fmap.
Qed.
End GroupShift.

Section GrowthRates.
Import Frame.
Variable df : list FlowRecord.

Lemma NoDup_annual_flows_keys : NoDup (annual_flows df).*1.
Proof.
  unfold annual_flows. rewrite sort_by_Permutation.
  unfold annual_totals. rewrite groupby_sum_keys. apply NoDup_group_keys.
Qed.

Lemma fmap_zip_with_l {X Y Z' W} (h : Z' → W) (h' : X → W)
    (g : X → Y → Z') (l : list X) (k : list Y) :
  (∀ x y, h (g x y) = h' x) → length l = length k →
  h <$> zip_with g l k = h' <$> l.
Proof.
  intros Hh. revert k.
  induction l as [|x l IH]; intros [|y k] Hlen; simplify_eq/=; [done|].
  by rewrite Hh, IH.
Qed.

Lemma filter_key_singleton {X Y} `{EqDecision Y} (proj : X → Y)
    (l : list X) (x : X) :
  NoDup (proj <$> l) → x ∈ l → filter (λ z, proj z = proj x) l = [x].
Proof.
  induction l as [|z l IH]; intros Hnd Hx; [by apply elem_of_nil in Hx|].
  rewrite fmap_cons in Hnd. apply NoDup_cons in Hnd as [Hz Hnd].
  rewrite filter_cons. apply elem_of_cons in Hx as [->|Hx].
  - rewrite decide_True by done. f_equal.
    apply filter_drop_all. intros w Hw Heq. apply Hz. rewrite <-Heq.
    by apply list_elem_of_fmap_2.
  - rewrite decide_False; [by apply IH|].
    intros Heq. apply Hz. rewrite Heq. by apply list_elem_of_fmap_2.
Qed.

Lemma NoDup_fmap_fst_filter {K V} (P : K * V → Prop)
    `{∀ x, Decision (P x)} (l : list (K * V)) :
  NoDup l.*1 → NoDup (filter P l).*1.
Proof.
  induction l as [|[k v] l IH]; [done|].
  rewrite fmap_cons, filter_cons. intros [Hk Hnd]%NoDup_cons.
  destruct (decide (P (k, v))); [|by apply IH].
  rewrite fmap_cons. apply NoDup_cons. split; [|by apply IH].
  intros (e & He & Hin)%list_elem_of_fmap.
  apply list_elem_of_filter in Hin as [_ Hin].
  apply Hk. rewrite He. by apply list_elem_of_fmap_2.
Qed.

Lemma length_corridor_col :
  length (corridor_col df) = length (annual_flows df).
Proof. apply length_fmap. Qed.

Lemma length_prev_year_flow :
  length (prev_year_flow df) = length (annual_flows df).
Proof.
  unfold prev_year_flow.
  rewrite length_group_shift, length_zip_with, length_corridor_col,
    !length_fmap. lia.
Qed.

Lemma length_growth_rate_col :
  length (growth_rate_col df) = length (annual_flows df).
Proof.
  unfold growth_rate_col.
  rewrite length_zip_with, length_prev_year_flow, length_fmap. lia.
Qed.

Lemma length_prev_growth_rate :
  length (prev_growth_rate df) = length (annual_flows df).
Proof.
  unfold prev_growth_rate.
  rewrite length_group_shift, length_zip_with, length_growth_rate_col,
    length_corridor_col. lia.
Qed.
End GrowthRates.

Section CorridorColumns.
Import Frame.
Variable df : list FlowRecord.
Variables f t : string.

Local Notation "'in_corridor'" :=
  (λ r : string * string * Z * Z, r.1.1 = (f, t)).
Local Notation "'rows'" := (filter in_corridor (annual_flows df)).

Lemma corridor_series_totals : (corridor_series df f t).*2 = rows.*2.
Proof.
  unfold corridor_series. by rewrite <-list_fmap_compose.
Qed.

Lemma length_corridor_series : length (corridor_series df f t) = length rows.
Proof. unfold corridor_series. by rewrite length_fmap. Qed.

Lemma pick_corridor_col {V} (col : list V) :
  pick (λ k, k = (f, t)) (corridor_col df) col
  = pick in_corridor (annual_flows df) col.
Proof.
  unfold corridor_col.
  exact (pick_fmap_keys (λ r : string * string * Z * Z, r.1.1)
           (λ k, k = (f, t)) (annual_flows df) col).
Qed.

(** The columns of the growth frame on the rows of the corridor. *)
Lemma pick_prev_year_flow :
  pick in_corridor (annual_flows df) (prev_year_flow df)
  = take (length rows) (None :: (Some <$> rows.*2)).
Proof.
  unfold prev_year_flow.
  rewrite <-pick_corridor_col.
  rewrite pick_group_shift
    by (by rewrite length_corridor_col, !length_fmap).
  rewrite pick_corridor_col.
  rewrite <-(list_fmap_compose snd Some (annual_flows df)).
  rewrite (pick_self in_corridor), length_fmap.
  by rewrite (list_fmap_compose snd Some).
Qed.

Lemma pick_growth_rate_col :
  pick in_corridor (annual_flows df) (growth_rate_col df)
  = zip_with growth_rate_cell rows.*2
      (take (length rows) (None :: (Some <$> rows.*2))).
Proof.
  unfold growth_rate_col.
  rewrite pick_zip_with
    by (by rewrite ?length_fmap, ?length_prev_year_flow).
  by rewrite pick_prev_year_flow, (pick_self in_corridor).
Qed.

Lemma pick_prev_growth_rate :
  pick in_corridor (annual_flows df) (prev_growth_rate df)
  = take (length rows)
      (None :: pick in_corridor (annual_flows df) (growth_rate_col df)).
Proof.
  unfold prev_growth_rate.
  rewrite <-pick_corridor_col.
  rewrite pick_group_shift
    by (by rewrite length_corridor_col, length_growth_rate_col).
  rewrite pick_corridor_col.
  by rewrite length_pick by (by rewrite length_growth_rate_col).
Qed.

Lemma previous_total_lookup i :
  (i < length rows)%nat →
  (None :: (Some <$> rows.*2)) !! i
  = Some (previous_total (corridor_series df f t) i).
Proof.
  intros Hi. destruct i as [|j]; [done|]. simpl.
  rewrite list_lookup_fmap, <-corridor_series_totals, list_lookup_fmap.
  destruct (corridor_series df f t !! j) eqn:Hj; [done|].
  apply lookup_ge_None in Hj. rewrite length_corridor_series in Hj. lia.
Qed.

Lemma growth_rate_col_lookup i :
  (i < length rows)%nat →
  pick in_corridor (annual_flows df) (growth_rate_col df) !! i
  = Some (series_rate (corridor_series df f t) i).
Proof.
  intros Hi. rewrite pick_growth_rate_col, lookup_zip_with.
  rewrite lookup_take_lt, previous_total_lookup by done.
  unfold series_rate. rewrite <-corridor_series_totals, !list_lookup_fmap.
  destruct (corridor_series df f t !! i) eqn:Hs; [done|].
  apply lookup_ge_None in Hs. rewrite length_corridor_series in Hs. lia.
Qed.

Lemma prev_growth_rate_lookup i :
  (i < length rows)%nat →
  pick in_corridor (annual_flows df) (prev_growth_rate df) !! i
  = Some (previous_rate (corridor_series df f t) i).
Proof.
  intros Hi. rewrite pick_prev_growth_rate, lookup_take_lt by done.
  destruct i as [|j]; [done|]. simpl.
  apply growth_rate_col_lookup. lia.
Qed.

(** The rows of the growth frame for the corridor. *)
Lemma growth_frame_corridor :
  filter (λ g, (gr_country_from g, gr_country_to g) = (f, t))
    (growth_frame df)
  = zip_with growth_row rows
      (zip (pick in_corridor (annual_flows df) (growth_rate_col df))
           (pick in_corridor (annual_flows df) (prev_growth_rate df))).
Proof.
  unfold growth_frame.
  rewrite (filter_zip_with_pick in_corridor).
  - rewrite (pick_zip_with in_corridor pair);
      by rewrite ?length_growth_rate_col, ?length_prev_growth_rate.
  - by intros [[[a b] y] n] g.
  - rewrite length_zip_with, length_growth_rate_col,
      length_prev_growth_rate. lia.
Qed.

Lemma growth_frame_corridor_lookup i y cur :
  corridor_series df f t !! i = Some (y, cur) →
  {| gr_country_from := f; gr_country_to := t; gr_year := y;
     gr_num_migrants := cur;
     growth_rate := series_rate (corridor_series df f t) i;
     growth_velocity :=
       velocity_cell (series_rate (corridor_series df f t) i)
         (previous_rate (corridor_series df f t) i) |}
  ∈ growth_frame df.
Proof.
  intros Hs.
  assert (i < length rows)%nat as Hi.
  { rewrite <-length_corridor_series. by eapply lookup_lt_Some. }
  unfold corridor_series in Hs. rewrite list_lookup_fmap in Hs.
  destruct (rows !! i) as [[[[a b] y'] n]|] eqn:Hr; simplify_eq/=.
  assert ((a, b) = (f, t)) as Hab.
  { apply list_elem_of_lookup_2 in Hr.
    by apply list_elem_of_filter in Hr as [? _]. }
  simplify_eq.
  apply (list_subseteq_filter
           (λ g, (gr_country_from g, gr_country_to g) = (f, t))).
  rewrite growth_frame_corridor.
  apply list_elem_of_lookup. exists i.
  rewrite lookup_zip_with, Hr. simpl.
  rewrite lookup_zip_with, growth_rate_col_lookup,
    prev_growth_rate_lookup by done.
  done.
Qed.
End CorridorColumns.

Lemma growth_frame_keys (df : list FlowRecord) :
  gr_key <$> growth_frame df = (annual_flows df).*1.
Proof.
  unfold growth_frame. apply fmap_zip_with_l.
  - by intros [[[a b] y] n] g.
  - rewrite length_zip_with, length_growth_rate_col, length_prev_growth_rate.
    lia.
Qed.

(** ** The order of the annual totals *)

Section KeyOrder.
Import Frame.

Lemma string_compare_trans (x y z : string) :
  String.compare x y ≠ Gt → String.compare y z ≠ Gt →
  String.compare x z ≠ Gt.
Proof.
  revert y z. induction x as [|a x IH]; intros [|b y] [|c z]; simpl;
    try done.
  unfold Ascii.compare.
  destruct (N.compare_spec (N_of_ascii a) (N_of_ascii b)) as [Hab|Hab|Hab],
    (N.compare_spec (N_of_ascii b) (N_of_ascii c)) as [Hbc|Hbc|Hbc],
    (N.compare_spec (N_of_ascii a) (N_of_ascii c)) as [Hac|Hac|Hac];
    try done; try lia.
  apply IH.
Qed.

Lemma string_leb_trans : leb_trans String.leb.
Proof.
  intros x y z. unfold String.leb.
  pose proof (string_compare_trans x y z) as Htrans.
  destruct (String.compare x y), (String.compare y z),
    (String.compare x z); try done; exfalso; by apply Htrans.
Qed.

Lemma string_leb_total : leb_total String.leb.
Proof. intros x y. apply String.leb_total. Qed.

Lemma string_leb_antisym : leb_antisym String.leb.
Proof. intros x y. apply String.leb_antisym. Qed.

Lemma Z_leb_total : leb_total Z.leb.
Proof. intros x y. lia. Qed.

Lemma Z_leb_trans : leb_trans Z.leb.
Proof. intros x y z. lia. Qed.

Lemma Z_leb_antisym : leb_antisym Z.leb.
Proof. intros x y. lia. Qed.

(** The order on pairs is the lexicographic one. *)
Section Pairs.
Context {A B : Type} `{EqDecision A, KeyOrd A, KeyOrd B}.
Hypothesis A_total : leb_total (key_leb (K := A)).
Hypothesis A_trans : leb_trans (key_leb (K := A)).
Hypothesis A_antisym : leb_antisym (key_leb (K := A)).
Hypothesis B_total : leb_total (key_leb (K := B)).
Hypothesis B_trans : leb_trans (key_leb (K := B)).
Hypothesis B_antisym : leb_antisym (key_leb (K := B)).

Lemma prod_leb_total : leb_total (key_leb (K := A * B)).
Proof.
  intros [a b] [a' b']. unfold key_leb, prod_KeyOrd. simpl.
  destruct (decide (a = a')) as [->|Hne].
  - rewrite decide_True by done. apply B_total.
  - rewrite decide_False by done. apply A_total.
Qed.

Lemma prod_leb_antisym : leb_antisym (key_leb (K := A * B)).
Proof.
  intros [a b] [a' b']. unfold key_leb, prod_KeyOrd. simpl.
  destruct (decide (a = a')) as [->|Hne].
  - rewrite decide_True by done. intros ? ?. f_equal. by apply B_antisym.
  - rewrite decide_False by done. intros ? ?. destruct Hne.
    by apply A_antisym.
Qed.

Lemma prod_leb_trans : leb_trans (key_leb (K := A * B)).
Proof.
  intros [a b] [a' b'] [a'' b'']. unfold key_leb, prod_KeyOrd. simpl.
  destruct (decide (a = a')) as [->|Hne], (decide (a' = a'')) as [->|Hne'].
  - apply B_trans.
  - by intros.
  - by rewrite decide_False by done.
  - intros Hle Hle'. destruct (decide (a = a'')) as [->|Hne''].
    + destruct Hne. by apply A_antisym.
    + by eapply A_trans.
Qed.
End Pairs.

Lemma corridor_year_leb_total :
  leb_total (key_leb (K := string * string * Z)).
Proof.
  apply prod_leb_total; [|apply Z_leb_total].
  apply prod_leb_total; apply string_leb_total.
Qed.

Lemma corridor_year_leb_trans :
  leb_trans (key_leb (K := string * string * Z)).
Proof.
  apply prod_leb_trans; [| |apply Z_leb_trans].
  - apply prod_leb_trans;
      auto using string_leb_trans, string_leb_antisym.
  - apply prod_leb_antisym; apply string_leb_antisym.
Qed.

Lemma StronglySorted_sort_by {A} (le : A → A → bool) (l : list A) :
  leb_total le → leb_trans le →
  StronglySorted (λ a b, le a b = true) (sort_by le l).
Proof.
  intros Htotal Htrans.
  assert (Transitive (λ a b, le a b = true)) as Hrel
    by (intros x y z; apply Htrans).
  apply (Sorted_StronglySorted (λ a b, le a b = true)).
  by apply Sorted_sort_by.
Qed.

Lemma StronglySorted_lookup {A} (R : relation A) (l : list A) i j x y :
  StronglySorted R l → (i < j)%nat →
  l !! i = Some x → l !! j = Some y → R x y.
Proof.
  intros Hsorted. revert i j.
  induction Hsorted as [|z l Hsorted IH Hall]; intros i j Hij Hi Hj;
    [done|].
  destruct j as [|j]; [lia|]. simpl in Hj. destruct i as [|i].
  - simpl in Hi. simplify_eq. rewrite Forall_forall in Hall.
    apply Hall. by eapply list_elem_of_lookup_2.
  - simpl in Hi. apply (IH i j); [lia|done..].
Qed.

Lemma StronglySorted_filter {A} (R : relation A) (P : A → Prop)
    `{∀ x, Decision (P x)} (l : list A) :
  StronglySorted R l → StronglySorted R (filter P l).
Proof.
  induction 1 as [|z l Hsorted IH Hall]; [constructor|].
  rewrite filter_cons. destruct (decide (P z)); [|done].
  constructor; [done|]. rewrite Forall_forall in *.
  intros x [_ Hx]%list_elem_of_filter. by apply Hall.
Qed.

Lemma StronglySorted_annual_flows (df : list FlowRecord) :
  StronglySorted (λ a b, key_leb a.1 b.1 = true) (annual_flows df).
Proof.
  apply (StronglySorted_sort_by
           (λ a b : string * string * Z * Z, key_leb a.1 b.1)).
  - intros a b. apply corridor_year_leb_total.
  - intros a b c. apply corridor_year_leb_trans.
Qed.

(** In the series of a corridor the years increase: the previous position
    holds the latest earlier year the corridor has records for. *)
Lemma corridor_series_years (df : list FlowRecord) (f t : string)
    (i j : nat) (yi ci yj cj : Z) :
  (i < j)%nat →
  corridor_series df f t !! i = Some (yi, ci) →
  corridor_series df f t !! j = Some (yj, cj) →
  yi < yj.
Proof.
  intros Hij Hi Hj. unfold corridor_series in *.
  rewrite list_lookup_fmap in Hi, Hj.
  destruct (filter _ (annual_flows df) !! i) as [[[[a b] y] n]|] eqn:Hri;
    simplify_eq/=.
  destruct (filter _ (annual_flows df) !! j) as [[[[a' b'] y'] n']|] eqn:Hrj;
    simplify_eq/=.
  assert ((a, b) = (f, t) ∧ (a', b') = (f, t)) as [? ?].
  { apply list_elem_of_lookup_2 in Hri, Hrj.
    apply list_elem_of_filter in Hri as [? _].
    by apply list_elem_of_filter in Hrj as [? _]. }
  simplify_eq.
  pose proof (StronglySorted_lookup _ _ i j _ _
                (StronglySorted_filter _ (λ r, r.1.1 = (f, t)) _
                   (StronglySorted_annual_flows df)) Hij Hri Hrj) as Hle.
  simpl in Hle. unfold key_leb, prod_KeyOrd in Hle. simpl in Hle.
  rewrite decide_True in Hle by done.
  assert (yi ≠ yj); [|unfold key_leb, Z_KeyOrd in Hle; lia].
  intros ->.
  assert (NoDup (filter (λ r : string * string * Z * Z, r.1.1 = (f, t))
                   (annual_flows df)).*1) as Hnd.
  { apply (NoDup_fmap_fst_filter _ _ (NoDup_annual_flows_keys df)). }
  assert (i = j); [|lia].
  eapply (NoDup_lookup _ i j (f, t, yj) Hnd);
    by rewrite list_lookup_fmap, ?Hri, ?Hrj.
Qed.
End KeyOrder.

(** The series of a corridor holds, for each year the corridor has records
    for, the sum of the migrants of these records. *)
Lemma corridor_series_total (df : list FlowRecord) (f t : string) (y cur : Z) :
  (y, cur) ∈ corridor_series df f t
  ↔ has_flow df f t y ∧ cur = flow_sum df f t y.
Proof.
  rewrite <-annual_totals_elem.
  unfold corridor_series, annual_flows. rewrite list_elem_of_fmap. split.
  - intros ([[[a b] y'] n] & Heq & Hin). simpl in Heq. simplify_eq.
    apply list_elem_of_filter in Hin as [Hab Hin]. simpl in Hab. simplify_eq.
    by rewrite sort_by_Permutation in Hin.
  - intros Hin. exists (f, t, y, cur). split; [done|].
    apply list_elem_of_filter. split; [done|].
    by rewrite sort_by_Permutation.
Qed.

(** [dropna] keeps, of the rows with one key, the one row of the growth
    frame if its growth rate is there. *)
Lemma growth_rates_filter (df : list FlowRecord) (g : GrowthRow) :
  g ∈ growth_frame df →
  filter (λ row, gr_key row = gr_key g) (generate_growth_rates df)
  = match growth_rate g with Some _ => [g] | None => [] end.
Proof.
  intros Hrow. unfold generate_growth_rates.
  rewrite list_filter_filter.
  rewrite (list_filter_iff _
             (λ row, is_Some (growth_rate row) ∧ gr_key row = gr_key g))
    by (intros; tauto).
  rewrite <-list_filter_filter.
  rewrite filter_key_singleton; [|by rewrite growth_frame_keys;
                                    apply NoDup_annual_flows_keys|done].
  rewrite filter_cons, filter_nil.
  destruct (growth_rate g) as [rate|].
  - by rewrite decide_True by by eexists.
  - rewrite decide_False; [done|]. by intros [? ?].
Qed.

(** C5: take the annual totals of a corridor in the order of the sorted
    frame, and the one of year [y], [cur], at position [i]: [cur] is the sum
    of the migrants of the corridor's records of that year, and the totals
    at earlier positions are those of earlier years.  The growth-rate view has
    no row for that corridor and year when [i] is the first position or when
    the total at the previous position is 0 (the rate is then missing, not
    infinite, and the row is dropped); otherwise it has exactly one row,
    whose growth rate is [(cur - prev) / prev * 100] for the previous total
    [prev], and which is kept whether or not its growth velocity, the rate
    minus the previous rate, is missing. *)
Theorem growth_rates_dropna
    (df : list FlowRecord) (f t : string) (i : nat) (y cur : Z) :
  corridor_series df f t !! i = Some (y, cur) →
  filter (λ row, gr_key row = (f, t, y)) (generate_growth_rates df)
  = match previous_total (corridor_series df f t) i with
    | None => []
    | Some prev =>
        if decide (prev = 0) then []
        else [ {| gr_country_from := f; gr_country_to := t; gr_year := y;
                  gr_num_migrants := cur;
                  growth_rate :=
                    Some (inject_Z (cur - prev) / inject_Z prev * 100)%Q;
                  growth_velocity :=
                    velocity_cell
                      (Some (inject_Z (cur - prev) / inject_Z prev * 100)%Q)
                      (previous_rate (corridor_series df f t) i) |} ]
    end
  ∧ (has_flow df f t y ∧ cur = flow_sum df f t y)
  ∧ ∀ j yj cj, (j < i)%nat →
      corridor_series df f t !! j = Some (yj, cj) → yj < y.
Proof.
  intros Hs. split; [|split].
  2: { apply corridor_series_total. by eapply list_elem_of_lookup_2. }
  2: { intros j yj cj Hj Hsj. by eapply corridor_series_years. }
  pose proof (growth_frame_corridor_lookup df f t i y cur Hs) as Hrow.
  apply growth_rates_filter in Hrow.
  refine (eq_trans Hrow _). cbn [growth_rate].
  unfold series_rate. rewrite Hs.
  cbn [fmap option_fmap option_map mbind option_bind snd].
  destruct (previous_total (corridor_series df f t) i) as [prev|];
    cbn [growth_rate_cell]; [|done].
  by destruct (decide (prev = 0)).
Qed.

Lemma growth_rates_dropna_witness :
  corridor_series (loaded_df [] growth_flows) "AA" "BB" !! 1%nat
  = Some (2020, 100)
  ∧ filter (λ row, gr_key row = ("AA", "BB", 2020))
      (generate_growth_rates (loaded_df [] growth_flows))
    = [ {| gr_country_from := "AA"; gr_country_to := "BB"; gr_year := 2020;
           gr_num_migrants := 100;
           growth_rate := Some (inject_Z (100 - 50) / inject_Z 50 * 100)%Q;
           growth_velocity := None |} ].
Proof.
  assert (corridor_series (loaded_df [] growth_flows) "AA" "BB" !! 1%nat
          = Some (2020, 100)) as Hs by (vm_compute; reflexivity).
  split; [exact Hs|].
  rewrite (proj1 (growth_rates_dropna _ _ _ _ _ _ Hs)).
  vm_compute. reflexivity.
Defined.

(** ** Least squares *)












(** ** Rolling averages *)

Section Rolling.
Import Frame.




Lemma NoDup_take {A} (l : list A) n : NoDup l → NoDup (take n l).
Proof.
  intros Hnd. rewrite <-(take_drop n l) in Hnd.
  by apply NoDup_app in Hnd as (? & _ & _).
Qed.

Lemma NoDup_top_corridors df : NoDup (top_corridors df).
Proof.
  unfold top_corridors, nlargest. rewrite fmap_take. apply NoDup_take.
  rewrite sort_by_Permutation, groupby_sum_keys. apply NoDup_group_keys.
Qed.

Lemma length_corridor_df df c :
  length (corridor_df df c) = observations df c.
Proof. unfold corridor_df. by rewrite length_sort_by. Qed.

Lemma corridor_df_key df c r :
  r ∈ corridor_df df c →
  country_from r = Some c.1 ∧ country_to r = Some c.2.
Proof.
  unfold corridor_df. rewrite elem_of_sort_by.
  by intros [? _]%list_elem_of_filter.
Qed.

Lemma corridor_rows_key df c block row :
  corridor_rows df c = Some block → row ∈ block → rr_key row = Some c.
Proof.
  unfold corridor_rows. destruct (decide _); [|done].
  intros [= <-] (r & avg & -> & Hr & _)%elem_of_zip_with.
  apply corridor_df_key in Hr as [Hf Ht].
  unfold rr_key. simpl. rewrite Hf, Ht. by destruct c.
Qed.


End Rolling.





(** ** The artifacts of a run *)

Section Artifacts.
Variable self : Processor.

Lemma generators_run (log : list Artifact) :
  if decide (df self = []) then mapM id (generators self) log = inl TypeError
  else
    match generate_corridor_rankings (df self) with
    | inl e => mapM id (generators self) log = inl e
    | inr _ =>
        ∃ log', mapM id (generators self) log
                = inr (reported_paths, log ++ log')
                ∧ log'.*1 = written_files self
    end.
Proof.
  unfold written_files.
  destruct (decide (df self = [])) as [Hrows|Hrows] eqn:Hempty,
    (decide (intermediate_names (index self) = ∅)) as [Hinter|Hinter]
    eqn:Hdec,
    (corridor_data (df self)) as [|block blocks] eqn:Hdata,
    (generate_corridor_rankings (df self)) as [e|rk] eqn:Hrank;
    cbv [generators mapM mbind mret Run_bind Run_ret to_json lift id raise
         emit_country_to_country emit_region_to_country
         emit_country_to_region emit_region_to_region
         emit_subregional_clustering emit_quarterly_averages
         emit_annual_totals emit_seasonal_patterns emit_rolling_averages
         emit_gross_flows emit_net_flows emit_corridor_rankings
         emit_growth_rates];
    rewrite ?Hempty, ?Hdec, ?Hdata, ?Hrank; try reflexivity;
    eexists; (split; [rewrite <-?app_assoc; reflexivity|reflexivity]).
Qed.
End Artifacts.

Lemma mapM_stat (existing paths : list string) (log : list Artifact) :
  mapM (stat existing) paths log
  = if decide (Forall (λ p, p ∈ existing ∨ p ∈ log.*1) paths)
    then inr ((λ _, ()) <$> paths, log)
    else inl FileNotFoundError.
Proof.
  induction paths as [|p paths IH].
  - by rewrite decide_True by constructor.
  - cbv [mapM mbind mret Run_bind Run_ret] in *. unfold stat at 1.
    destruct (decide (p ∈ existing ∨ p ∈ log.*1)) as [Hp|Hp].
    + rewrite IH. destruct (decide (Forall _ paths)) as [Hall|Hall].
      * by rewrite decide_True by by constructor.
      * rewrite decide_False; [done|]. by intros [_ ?]%Forall_cons.
    + rewrite decide_False; [done|]. by intros [? _]%Forall_cons.
Qed.

Lemma generate_all_variations_eq (self : Processor)
    (existing : list string) (log : list Artifact) :
  generate_all_variations self existing log
  = match mapM id (generators self) log with
    | inl e => inl e
    | inr (generated_files, log') =>
        match mapM (stat existing) generated_files log' with
        | inl e => inl e
        | inr (_, log'') => inr (generated_files, log'')
        end
    end.
Proof.
  unfold generate_all_variations. cbv [mbind Run_bind mret Run_ret].
  destruct (mapM id (generators self) log) as [e|[gf log']]; [done|].
  by destruct (mapM (stat existing) gf log') as [e|[u log'']].
Qed.

Lemma length_written_files (self : Processor) :
  (13 ≤ length (written_files self) ≤ 15)%nat.
Proof.
  unfold written_files. rewrite !length_app.
  destruct (decide _), (corridor_data _); simpl; lia.
Qed.

Lemma NoDup_written_files (self : Processor) : NoDup (written_files self).
Proof.
  unfold written_files.
  destruct (decide _), (corridor_data _); simpl;
    apply (bool_decide_unpack _); vm_compute; exact I.
Qed.

(** A top corridor with at least 6 records contributes rows. *)
Lemma corridor_data_contributes (df : list FlowRecord) (c : string * string) :
  c ∈ top_corridors df → (6 ≤ observations df c)%nat → corridor_data df ≠ [].
Proof.
  intros Hc Hobs Hnil.
  assert (is_Some (corridor_rows df c)) as [block Hblock].
  { unfold corridor_rows. rewrite length_corridor_df.
    by rewrite decide_True by done. }
  assert (block ∈ corridor_data df) as Hin
    by (apply list_elem_of_omap; by exists c).
  rewrite Hnil in Hin. by apply elem_of_nil in Hin.
Qed.

(** C3 (as the code has it): a run that completes, and in which the rolling
    averages have rows to write (some top corridor has at least 6 records),
    reports thirteen paths, one per generator, and writes 14 or 15
    artifacts, no name twice: one for each path reported, the annual totals
    by region (the second file of the annual totals), and the
    intermediate-region flows, the fifteenth, exactly when the index holds
    an intermediate-region name. *)
Theorem all_variations_artifacts
    (m49 : list M49Line) (flows : list FlowLine) (existing : list string)
    (paths : list string) (written : list Artifact) :
  main m49 flows existing = inr (paths, written) →
  (∃ c, c ∈ top_corridors (loaded_df m49 flows)
        ∧ (6 ≤ observations (loaded_df m49 flows) c)%nat) →
  paths = reported_paths
  ∧ length paths = 13%nat
  ∧ NoDup written.*1
  ∧ (∀ p, p ∈ written.*1
          ↔ p ∈ paths
            ∨ p = "flows_region_to_region_annual.json"
            ∨ (p = "flows_intermediate_to_intermediate_monthly.json"
               ∧ intermediate_names (load_regional_mappings (read_m49 m49))
                 ≠ ∅))
  ∧ (14 ≤ length written ≤ 15)%nat
  ∧ (length written = 15%nat
     ↔ intermediate_names (load_regional_mappings (read_m49 m49)) ≠ ∅).
Proof.
  unfold main, loaded_df.
  destruct (init m49 flows) as [e|self] eqn:Hinit; [done|].
  intros Hrun (c & Hc & Hobs).
  pose proof (corridor_data_contributes _ _ Hc Hobs) as Hdata.
  assert (index self = load_regional_mappings (read_m49 m49)) as <-.
  { unfold init in Hinit. destruct (load_migration_data _ flows); [done|].
    by injection Hinit as <-. }
  rewrite generate_all_variations_eq in Hrun.
  pose proof (generators_run self []) as Hgen.
  destruct (decide (df self = [])); [by rewrite Hgen in Hrun|].
  destruct (generate_corridor_rankings (df self)) as [e|rk].
  { by rewrite Hgen in Hrun. }
  destruct Hgen as (log & Hgen & Hlog). rewrite Hgen in Hrun.
  rewrite app_nil_l in Hrun. rewrite mapM_stat in Hrun.
  destruct (decide (Forall _ reported_paths)) as [Hall|]; [|done].
  simplify_eq.
  assert (length written = length (written_files self)) as Hlen
    by (by rewrite <-Hlog, length_fmap).
  rewrite Hlen, Hlog. clear Hlen Hlog Hall.
  unfold written_files.
  destruct (corridor_data (df self)) as [|block blocks]; [done|].
  do 2 (split; [done|]). split; [|split; [|split]].
  - destruct (decide _); apply (bool_decide_unpack _); vm_compute; exact I.
  - intros p. unfold reported_paths.
    destruct (decide (intermediate_names (index self) = ∅)) as [Hinter|Hinter];
      rewrite !elem_of_app, !elem_of_cons, !elem_of_nil; tauto.
  - destruct (decide _); simpl; lia.
  - destruct (decide (intermediate_names (index self) = ∅)); simpl;
      split; try done; lia.
Qed.

Lemma all_variations_fifteen_run :
  { paths & { written |
      main intermediate_m49 six_flows [] = inr (paths, written) } }.
Proof. eexists _, _. vm_compute. reflexivity. Defined.

(** C3 as stated fails: on a classification table with an intermediate
    region and a corridor with six months of records, the run completes and
    writes 15 artifacts, not 13. *)
Lemma all_variations_fifteen :
  ∃ paths written,
    main intermediate_m49 six_flows [] = inr (paths, written)
    ∧ length written = 15%nat ∧ length written ≠ 13%nat.
Proof.
  eexists _, _. split; [vm_compute; reflexivity|]. by split.
Qed.

Lemma all_variations_artifacts_witness :
  ∃ paths written,
    main intermediate_m49 six_flows [] = inr (paths, written)
    ∧ length paths = 13%nat
    ∧ (14 ≤ length written ≤ 15)%nat.
Proof.
  destruct all_variations_fifteen_run as (paths & written & Hrun).
  exists paths, written. split; [exact Hrun|].
  assert (∃ c, c ∈ top_corridors (loaded_df intermediate_m49 six_flows)
               ∧ (6 ≤ observations (loaded_df intermediate_m49 six_flows) c)%nat)
    as Hrows.
  { exists ("AA", "BB"). split.
    - vm_compute. left.
    - apply (bool_decide_unpack _). vm_compute. exact I. }
  destruct (all_variations_artifacts _ _ _ _ _ Hrun Hrows)
    as (_ & Hpaths & _ & _ & Hwritten & _).
  by split.
Defined.

(** ** Loading the record store *)

Section Load.

Lemma strptime_formats_disjoint text :
  is_Some (strptime Fmt_Ymd text) → strptime Fmt_Ym text = None.
Proof.
  unfold strptime. intros [d Hd].
  destruct (decide (String.length text = 10%nat ∧ _)) as [[Hlen _]|];
    [|done].
  rewrite decide_False; [done|]. intros [Hlen' _]. congruence.
Qed.

Lemma guess_datetime_format_fits fmt text :
  is_Some (strptime fmt text) → guess_datetime_format text = Some fmt.
Proof.
  unfold guess_datetime_format. destruct fmt; intros Hfit.
  - by destruct Hfit as [d ->].
  - rewrite (strptime_formats_disjoint _ Hfit). by destruct Hfit as [d ->].
Qed.

Lemma mapM_fits fmt (column : list (option string)) :
  fits_format fmt column →
  is_Some (mapM (λ cell, match cell with
                         | None => Some None
                         | Some s => Some <$> strptime fmt s
                         end) column).
Proof.
  intros Hfit. apply mapM_is_Some. eapply Forall_impl; [exact Hfit|].
  intros [text|]; simpl; [|done]. by intros [d ->].
Qed.

(** A column whose cells are missing or all fit one of the two formats
    is parsed, cell by cell. *)
Lemma to_datetime_fits fmt (column : list (option string)) :
  fits_format fmt column →
  ∃ dates, to_datetime column = inr dates ∧ length dates = length column.
Proof.
  intros Hfit. unfold to_datetime.
  destruct (head (omap id column)) as [first|] eqn:Hfirst.
  - assert (is_Some (strptime fmt first)) as Hguess.
    { apply head_Some_elem_of in Hfirst.
      apply list_elem_of_omap in Hfirst as (cell & Hcell & Hid).
      simpl in Hid. subst cell.
      unfold fits_format in Hfit. rewrite Forall_forall in Hfit.
      by apply (Hfit _ Hcell). }
    rewrite (guess_datetime_format_fits _ _ Hguess).
    destruct (mapM_fits fmt column Hfit) as [dates Hdates].
    rewrite Hdates. exists dates. split; [done|].
    symmetry. by eapply length_mapM.
  - eexists. split; [done|]. by rewrite length_fmap.
Qed.
End Load.

(** C9 (as the code has it): the loader has no format check of its own;
    it fails exactly when the date parser rejects the month column, with the
    parser's error, and then no record store exists and the run ends with
    that error.  A column whose cells are missing or all of the form YYYY-MM,
    or all full dates YYYY-MM-DD, whatever the day, is accepted, and the
    store then has one record per line of the table. *)
Theorem load_fails_iff_parser_rejects
    (idx : HierarchyIndex) (lines : list FlowLine) :
  (∀ e, load_migration_data idx lines = inl e
        ↔ to_datetime (month_column lines) = inl e)
  ∧ (∀ m49 existing e,
       to_datetime (month_column lines) = inl e →
       init m49 lines = inl e ∧ main m49 lines existing = inl e)
  ∧ (∀ fmt, fits_format fmt (month_column lines) →
       ∃ records, load_migration_data idx lines = inr records
                  ∧ length records = length lines).
Proof.
  split_and!.
  - intros e. unfold load_migration_data. fold (month_column lines).
    destruct (to_datetime (month_column lines)); split; congruence.
  - intros m49 existing e He. unfold main, init, load_migration_data.
    fold (month_column lines). by rewrite He.
  - intros fmt Hfit.
    destruct (to_datetime_fits fmt _ Hfit) as (dates & Hdates & Hlen).
    unfold load_migration_data. fold (month_column lines). rewrite Hdates.
    eexists. split; [done|].
    rewrite length_zip_with, Hlen. unfold month_column.
    rewrite length_fmap. lia.
Qed.

(** C9 as stated fails: the month 2020-01-15 is neither of the form YYYY-MM
    nor YYYY-MM-01, and the table that holds it loads. *)
Lemma load_accepts_mid_month_date :
  (∃ l, l ∈ mid_month_flows
        ∧ ¬ reads_as_year_month (line_migration_month l))
  ∧ ∃ records, load_migration_data empty_index mid_month_flows = inr records.
Proof.
  split.
  - eexists. split; [left|]. simpl.
    intros [Hym|(d & Hd & Hday)].
    + vm_compute in Hym. by destruct Hym.
    + vm_compute in Hd. injection Hd as <-. simpl in Hday. lia.
  - eexists. vm_compute. reflexivity.
Qed.

(** * Further properties *)

(** ** The hierarchy index: the last row wins *)

Section LastRow.

Lemma add_m49_row_country idx row k iso :
  kind_country (add_m49_row idx row) k !! iso
  = if decide (iso_alpha2 row = Some iso) then Some (kind_code k row)
    else kind_country idx k !! iso.
Proof.
  unfold add_m49_row. destruct (iso_alpha2 row) as [iso'|].
  - destruct (decide (Some iso' = Some iso)) as [[= ->]|Hne].
    + destruct k; simpl; by rewrite lookup_insert_eq.
    + destruct k; simpl; rewrite lookup_insert_ne; congruence.
  - by rewrite decide_False.
Qed.

Lemma add_m49_row_name idx row k c :
  kind_names (add_m49_row idx row) k !! c
  = if decide (is_Some (iso_alpha2 row) ∧ kind_code k row = Some c)
    then Some (kind_name k row)
    else kind_names idx k !! c.
Proof.
  unfold add_m49_row. destruct (iso_alpha2 row) as [iso|].
  - destruct (decide (kind_code k row = Some c)) as [Hc|Hc].
    + rewrite decide_True by (split; [by eexists|done]).
      destruct k; simpl in *; rewrite Hc; simpl; by rewrite lookup_insert_eq.
    + rewrite decide_False by tauto.
      destruct k; simpl in *;
        match goal with
        | |- context [store_name ?oc _ _] =>
            destruct oc as [c0|]; simpl; [|done];
            rewrite lookup_insert_ne; congruence
        end.
  - rewrite decide_False; [done|]. by intros [[? ?] _].
Qed.

Lemma load_regional_mappings_snoc rows row :
  load_regional_mappings (rows ++ [row])
  = add_m49_row (load_regional_mappings rows) row.
Proof. unfold load_regional_mappings. apply foldl_snoc. Qed.

Lemma last_filter_snoc {A} (P : A → Prop) `{∀ x, Decision (P x)}
    (l : list A) (x : A) :
  last (filter P (l ++ [x]))
  = if decide (P x) then Some x else last (filter P l).
Proof.
  rewrite filter_app, filter_cons, filter_nil.
  destruct (decide (P x)); [apply last_snoc|by rewrite app_nil_r].
Qed.

Lemma country_lookup_last rows k iso :
  kind_country (load_regional_mappings rows) k !! iso
  = kind_code k <$> last (filter (λ r, iso_alpha2 r = Some iso) rows).
Proof.
  induction rows as [|row rows IH] using rev_ind.
  - destruct k; apply lookup_empty.
  - rewrite load_regional_mappings_snoc, add_m49_row_country,
      last_filter_snoc, IH.
    by destruct (decide (iso_alpha2 row = Some iso)).
Qed.

Lemma name_lookup_last rows k c :
  kind_names (load_regional_mappings rows) k !! c
  = kind_name k
      <$> last (filter (λ r, is_Some (iso_alpha2 r) ∧ kind_code k r = Some c)
                 rows).
Proof.
  induction rows as [|row rows IH] using rev_ind.
  - destruct k; apply lookup_empty.
  - rewrite load_regional_mappings_snoc, add_m49_row_name,
      last_filter_snoc, IH.
    by destruct (decide (is_Some (iso_alpha2 row) ∧ kind_code k row = Some c)).
Qed.
End LastRow.

(** X1: the index is built with the last row winning: a country is bound to
    the code of the last row of the table that carries its country code, and
    has no entry when no row does; a code is bound to the name cell of the
    last row that carries it together with a country code (rows without a
    country code are skipped and record nothing). *)
Theorem load_regional_mappings_last_row_wins
    (rows : list M49Row) (k : Kind) (iso : string) (c : code) :
  kind_country (load_regional_mappings rows) k !! iso
  = kind_code k <$> last (filter (λ r, iso_alpha2 r = Some iso) rows)
  ∧ kind_names (load_regional_mappings rows) k !! c
    = kind_name k
        <$> last (filter (λ r, is_Some (iso_alpha2 r)
                               ∧ kind_code k r = Some c) rows).
Proof. split; [apply country_lookup_last|apply name_lookup_last]. Qed.

(** ** The record store: what loading keeps *)

Section Records.

Lemma read_cell_not_na text s : read_cell text = Some s → s ∉ na_values.
Proof.
  unfold read_cell. destruct (decide (text ∈ na_values)); [done|].
  by intros [= <-].
Qed.

Lemma strptime_valid fmt s d : strptime fmt s = Some d → valid_date d = true.
Proof.
  unfold strptime. destruct fmt; destruct (decide _); try done;
    intros Hd; repeat (apply bind_Some in Hd as (? & _ & Hd));
    by destruct (valid_date _) eqn:Hvalid; simplify_eq.
Qed.

Lemma to_datetime_dates column dates :
  to_datetime column = inr dates →
  length dates = length column
  ∧ ∀ d, Some d ∈ dates → valid_date d = true.
Proof.
  unfold to_datetime. destruct (head (omap id column)) as [first|].
  - destruct (guess_datetime_format first) as [fmt|]; [|done].
    destruct (mapM _ column) as [dates'|] eqn:Hmap; [|done].
    intros [= <-]. split; [symmetry; by eapply length_mapM|].
    intros d Hd. apply mapM_Some_1 in Hmap.
    apply list_elem_of_lookup in Hd as [i Hi].
    destruct (Forall2_lookup_r _ _ _ _ _ Hmap Hi) as ([s|] & _ & Hcell);
      [|done].
    apply fmap_Some in Hcell as (d' & Hparse & [= ->]).
    by eapply strptime_valid.
  - intros [= <-]. split; [by rewrite length_fmap|].
    by intros d (? & ? & _)%list_elem_of_fmap.
Qed.

Lemma load_migration_data_lookup idx lines records i l :
  load_migration_data idx lines = inr records →
  lines !! i = Some l →
  ∃ d, records !! i = Some (enrich idx l d)
       ∧ ∀ d', d = Some d' → valid_date d' = true.
Proof.
  unfold load_migration_data.
  destruct (to_datetime (month_column lines)) as [|dates] eqn:Hdates; [done|].
  intros [= <-] Hl. apply to_datetime_dates in Hdates as [Hlen Hvalid].
  unfold month_column in Hlen. rewrite length_fmap in Hlen.
  destruct (dates !! i) as [d|] eqn:Hd.
  - exists d. rewrite lookup_zip_with, Hl. simpl. rewrite Hd. split; [done|].
    intros d' ->. apply Hvalid. by eapply list_elem_of_lookup_2.
  - apply lookup_ge_None in Hd. apply lookup_lt_Some in Hl. lia.
Qed.

Lemma load_migration_data_elem idx lines records r :
  load_migration_data idx lines = inr records → r ∈ records →
  ∃ l d, l ∈ lines ∧ r = enrich idx l d
         ∧ ∀ d', d = Some d' → valid_date d' = true.
Proof.
  intros Hload [i Hi]%list_elem_of_lookup.
  pose proof Hload as Hzip. unfold load_migration_data in Hzip.
  destruct (to_datetime (month_column lines)) as [|dates]; [done|].
  injection Hzip as <-.
  pose proof Hi as Hlt. rewrite lookup_zip_with in Hlt.
  destruct (lines !! i) as [l|] eqn:Hl; [|done].
  destruct (load_migration_data_lookup idx lines _ i l Hload Hl)
    as (d & Hr & Hvalid).
  exists l, d. split; [by eapply list_elem_of_lookup_2|].
  split; [congruence|done].
Qed.

Lemma loaded_df_elem m49 flows r :
  r ∈ loaded_df m49 flows →
  ∃ l d, l ∈ flows
         ∧ r = enrich (load_regional_mappings (read_m49 m49)) l d.
Proof.
  unfold loaded_df, init.
  destruct (load_migration_data _ flows) as [|records] eqn:Hload;
    [by intros ?%elem_of_nil|].
  simpl. intros Hr.
  destruct (load_migration_data_elem _ _ _ _ Hload Hr) as (l & d & ? & ? & _).
  by exists l, d.
Qed.

Lemma map_dict_classified rows k cell :
  map_dict (kind_country (load_regional_mappings rows) k) cell
  = classified rows k cell.
Proof.
  unfold map_dict, classified. destruct cell as [iso|]; [|done]. simpl.
  rewrite country_lookup_last.
  by destruct (last (filter _ rows)).
Qed.
End Records.

(** X2: a cell text that [read_csv] takes for a missing value, such as NA,
    the country code of Namibia, is never a country of the index, and no row
    of the annual totals has it as origin or as destination. *)
Theorem na_code_never_kept
    (m49 : list M49Line) (flows : list FlowLine) (k : Kind) (text : string) :
  text ∈ na_values →
  kind_country (load_regional_mappings (read_m49 m49)) k !! text = None
  ∧ ∀ other y total,
      ((text, other, y, total) ∉ annual_totals (loaded_df m49 flows))
      ∧ ((other, text, y, total) ∉ annual_totals (loaded_df m49 flows)).
Proof.
  intros Hna. split.
  - rewrite country_lookup_last, filter_drop_all; [done|].
    intros row (l & -> & _)%list_elem_of_fmap Hiso. simpl in Hiso.
    by apply read_cell_not_na in Hiso.
  - intros other y total.
    split; intros (Hflow & _)%annual_totals_elem;
      destruct Hflow as (r & Hr & Hfrom & Hto & _);
      apply loaded_df_elem in Hr as (l & d & _ & ->); simpl in *.
    + by apply read_cell_not_na in Hfrom.
    + by apply read_cell_not_na in Hto.
Qed.

Lemma na_code_never_kept_witness :
  "NA" ∈ na_values
  ∧ country_to_region (load_regional_mappings (read_m49 example_m49)) !! "NA"
    = None.
Proof.
  assert ("NA" ∈ na_values) as Hna
    by (apply (bool_decide_unpack _); vm_compute; exact I).
  split; [exact Hna|].
  exact (proj1 (na_code_never_kept example_m49 example_flows Region "NA" Hna)).
Defined.

(** X3: loading keeps every line of the flow table, in order, whether or not
    its countries are classified: record [i] carries the cells of line [i],
    and as region (sub-region, intermediate region) of its origin and of its
    destination the code the last row of the classification table with that
    country code gives, which is missing when there is no such row. *)
Theorem init_keeps_every_line
    (m49 : list M49Line) (flows : list FlowLine) (self : Processor) :
  init m49 flows = inr self →
  length (df self) = length flows
  ∧ ∀ i l, flows !! i = Some l →
      ∃ r, df self !! i = Some r
        ∧ country_from r = read_cell (line_country_from l)
        ∧ country_to r = read_cell (line_country_to l)
        ∧ migration_month r = read_cell (line_migration_month l)
        ∧ num_migrants r = line_num_migrants l
        ∧ ∀ k, kind_from k r
               = classified (read_m49 m49) k (read_cell (line_country_from l))
               ∧ kind_to k r
                 = classified (read_m49 m49) k
                     (read_cell (line_country_to l)).
Proof.
  unfold init.
  destruct (load_migration_data _ flows) as [|records] eqn:Hload; [done|].
  intros [= <-]. simpl. split.
  - unfold load_migration_data in Hload.
    destruct (to_datetime (month_column flows)) as [|dates] eqn:Hdates;
      [done|].
    injection Hload as <-. apply to_datetime_dates in Hdates as [Hlen _].
    unfold month_column in Hlen. rewrite length_fmap in Hlen.
    rewrite length_zip_with. lia.
  - intros i l Hl.
    destruct (load_migration_data_lookup _ _ _ i l Hload Hl) as (d & Hr & _).
    eexists. split; [exact Hr|]. simpl. split_and!; try done.
    intros k. rewrite <-!map_dict_classified. by destruct k.
Qed.

Lemma init_keeps_every_line_witness :
  ∃ self, init example_m49 example_flows = inr self
    ∧ length (df self) = length example_flows.
Proof.
  assert { self | init example_m49 example_flows = inr self } as [self Hinit]
    by (eexists; vm_compute; reflexivity).
  exists self. split; [exact Hinit|].
  exact (proj1 (init_keeps_every_line _ _ _ Hinit)).
Defined.

(** X4: the calendar fields of a loaded record go with its date: with a
    date, the month is between 1 and 12, the quarter is the one of the month
    (between 1 and 4, months [3q - 2 .. 3q]), and the season is the one the
    season map gives the month, never missing; without a date (NaT) the
    year, month, quarter and season are all missing. *)
Theorem record_calendar_fields
    (idx : HierarchyIndex) (lines : list FlowLine)
    (records : list FlowRecord) (r : FlowRecord) :
  load_migration_data idx lines = inr records → r ∈ records →
  match date r with
  | Some d =>
      year r = Some (date_year d) ∧ month r = Some (date_month d)
      ∧ 1 ≤ date_month d ≤ 12
      ∧ (∃ q, quarter r = Some q ∧ 1 ≤ q ≤ 4
              ∧ 3 * q - 2 ≤ date_month d ≤ 3 * q)
      ∧ season r = season_map (date_month d) ∧ is_Some (season r)
  | None =>
      year r = None ∧ month r = None ∧ quarter r = None ∧ season r = None
  end.
Proof.
  intros Hload Hr.
  destruct (load_migration_data_elem _ _ _ _ Hload Hr)
    as (l & [d|] & _ & -> & Hvalid); simpl; [|done].
  specialize (Hvalid d eq_refl). unfold valid_date in Hvalid.
  assert (1 ≤ date_month d ≤ 12) as Hmonth by lia.
  split_and!; try done; try lia.
  - eexists. split; [done|].
    pose proof (Z.div_mod (date_month d - 1) 3 ltac:(lia)) as Hdiv.
    pose proof (Z.mod_pos_bound (date_month d - 1) 3 ltac:(lia)) as Hmod.
    lia.
  - unfold season_map.
    assert (date_month d ∈ [12; 1; 2] ∨ date_month d ∈ [3; 4; 5]
            ∨ date_month d ∈ [6; 7; 8] ∨ date_month d ∈ [9; 10; 11])
      as Hcases.
    { rewrite !elem_of_cons.
      assert (date_month d = 1 ∨ date_month d = 2 ∨ date_month d = 3
              ∨ date_month d = 4 ∨ date_month d = 5 ∨ date_month d = 6
              ∨ date_month d = 7 ∨ date_month d = 8 ∨ date_month d = 9
              ∨ date_month d = 10 ∨ date_month d = 11 ∨ date_month d = 12)
        by lia.
      tauto. }
    repeat (destruct (decide _); [by eexists|]). tauto.
Qed.

Lemma record_calendar_fields_witness :
  ∃ records r, load_migration_data empty_index example_flows = inr records
    ∧ r ∈ records
    ∧ match date r with
      | Some d => 1 ≤ date_month d ≤ 12
      | None => True
      end.
Proof.
  assert { records | load_migration_data empty_index example_flows
                     = inr records } as [records Hload]
    by (eexists; vm_compute; reflexivity).
  assert { r | r ∈ records } as (r & Hr).
  { revert Hload. vm_compute. intros [= <-]. eexists. left. }
  exists records, r. split_and!; [done..|].
  pose proof (record_calendar_fields _ _ _ _ Hload Hr) as Hfields.
  destruct (date r); [|exact I].
  destruct Hfields as (_ & _ & Hmonth & _). exact Hmonth.
Defined.

(** ** Grouped sums lose and repeat nothing *)

Section Conservation.
Import Frame.

Lemma sum_cons (x : Z) (l : list Z) : sum (x :: l) = x + sum l.
Proof. done. Qed.

Lemma sum_fmap_add {A} (g h : A → Z) (l : list A) :
  sum ((λ x, g x + h x) <$> l) = sum (g <$> l) + sum (h <$> l).
Proof.
  induction l as [|x l IH]; [done|]. rewrite !fmap_cons, !sum_cons, IH. lia.
Qed.

Lemma sum_fmap_sub {A} (g h : A → Z) (l : list A) :
  sum ((λ x, g x - h x) <$> l) = sum (g <$> l) - sum (h <$> l).
Proof.
  induction l as [|x l IH]; [done|]. rewrite !fmap_cons, !sum_cons, IH. lia.
Qed.

Lemma sum_fmap_zero {A} (l : list A) : sum ((λ _, 0) <$> l) = 0.
Proof.
  induction l as [|x l IH]; [done|]. rewrite fmap_cons, sum_cons, IH. lia.
Qed.

Lemma sum_indicator {K} `{EqDecision K} (ks : list K) (k0 : K) (v : Z) :
  NoDup ks →
  sum ((λ k, if decide (k0 = k) then v else 0) <$> ks)
  = if decide (k0 ∈ ks) then v else 0.
Proof.
  induction 1 as [|k ks Hk Hnd IH].
  { by rewrite decide_False by apply not_elem_of_nil. }
  rewrite fmap_cons, sum_cons, IH.
  destruct (decide (k0 = k)) as [->|Hne].
  - rewrite (decide_False (P := k ∈ ks)) by done.
    rewrite decide_True by left. lia.
  - destruct (decide (k0 ∈ ks)).
    + by rewrite decide_True by by right.
    + rewrite decide_False; [done|]. by intros [?|?]%elem_of_cons.
Qed.

(** Summing, over a list of distinct keys that holds every key of the frame,
    the column on the rows of each key, gives the sum of the column over the
    rows that have a key. *)
Lemma sum_over_keys {R K} `{EqDecision K} (key : R → option K) (col : R → Z)
    (ks : list K) (df : list R) :
  NoDup ks →
  (∀ r k, r ∈ df → key r = Some k → k ∈ ks) →
  sum ((λ k, sum (col <$> filter (λ r, key r = Some k) df)) <$> ks)
  = sum (col <$> filter (λ r, is_Some (key r)) df).
Proof.
  intros Hnd. induction df as [|r df IH]; intros Hcover.
  - rewrite filter_nil. apply sum_fmap_zero.
  - assert (sum ((λ k, sum (col <$> filter (λ r, key r = Some k) (r :: df)))
                   <$> ks)
            = sum ((λ k, (if decide (key r = Some k) then col r else 0)
                         + sum (col <$> filter (λ r, key r = Some k) df))
                     <$> ks)) as ->.
    { f_equal. apply list_fmap_ext. intros _ k _. rewrite filter_cons.
      destruct (decide (key r = Some k)); [by rewrite fmap_cons, sum_cons|].
      lia. }
    rewrite sum_fmap_add, IH by (intros; eapply Hcover; [by right|done]).
    rewrite filter_cons. destruct (key r) as [k0|] eqn:Hkey.
    + rewrite decide_True by by eexists.
      assert (sum ((λ k, if decide (Some k0 = Some k) then col r else 0)
                     <$> ks) = col r) as ->; [|done].
      erewrite list_fmap_ext; [rewrite (sum_indicator ks k0 (col r) Hnd)|].
      * rewrite decide_True; [done|]. eapply Hcover; [left|done].
      * intros _ k _.
        destruct (decide (Some k0 = Some k)), (decide (k0 = k)); congruence.
    + rewrite decide_False by by intros [? ?].
      erewrite list_fmap_ext; [rewrite sum_fmap_zero; lia|].
      intros _ k _. by destruct (decide (None = Some k)).
Qed.

Lemma sum_groupby_sum {R K} `{EqDecision K, KeyOrd K}
    (key : R → option K) (col : R → Z) (df : list R) :
  sum (groupby_sum key col df).*2
  = sum (col <$> filter (λ r, is_Some (key r)) df).
Proof.
  rewrite groupby_sum_eq, <-list_fmap_compose.
  apply sum_over_keys; [apply NoDup_group_keys|].
  intros r k Hr Hk. apply elem_of_group_keys. by exists r.
Qed.

Lemma is_Some_key3 {A B C} (a : option A) (b : option B) (c : option C) :
  is_Some (key3 a b c) ↔ is_Some a ∧ is_Some b ∧ is_Some c.
Proof.
  destruct a, b, c; simpl; split;
    try (intros (? & ? & ?)); try (intros [? ?]); try done;
    repeat split; by eexists.
Qed.
End Conservation.

Section Rollups.
Import Frame.

Lemma monthly_sums_total {A B} `{EqDecision A, EqDecision B}
    `{KeyOrd A, KeyOrd B}
    (origin : FlowRecord → option A) (dest : FlowRecord → option B)
    (df : list FlowRecord) :
  sum (monthly_sums origin dest df).*2
  = sum (num_migrants
      <$> filter (λ r, is_Some (origin r) ∧ is_Some (dest r)
                       ∧ is_Some (migration_month r)) df).
Proof.
  unfold monthly_sums. rewrite sum_groupby_sum.
  do 2 f_equal. apply list_filter_iff. intros r. apply is_Some_key3.
Qed.

Lemma renamed_totals {A B A' B' C} (f : A → A') (g : B → B')
    (l : list (A * B * C * Z)) :
  ((λ '(a, b, c, total), (f a, g b, c, total)) <$> l).*2 = l.*2.
Proof.
  rewrite <-list_fmap_compose. apply list_fmap_ext.
  by intros _ [[[a b] c] total] _.
Qed.
End Rollups.

(** X5: the annual totals add up to the migrants of the records whose
    origin, destination and date are there: no such record is left out or
    counted twice, and the records without one of the three count nowhere.
    The gross-flow view holds the same rows, and the annual totals by region
    add up to the migrants of the records with both regions and a date. *)
Theorem annual_totals_conserve (idx : HierarchyIndex) (df : list FlowRecord) :
  Frame.sum (annual_totals df).*2
  = Frame.sum (num_migrants
      <$> filter (λ r, is_Some (country_from r) ∧ is_Some (country_to r)
                       ∧ is_Some (year r)) df)
  ∧ generate_gross_flows df = annual_totals df
  ∧ Frame.sum (annual_region_totals idx df).*2
    = Frame.sum (num_migrants
        <$> filter (λ r, is_Some (region_from r) ∧ is_Some (region_to r)
                         ∧ is_Some (year r)) df).
Proof.
  split_and!; [|done|].
  - unfold annual_totals. rewrite sum_groupby_sum.
    do 2 f_equal. apply list_filter_iff. intros r. apply is_Some_key3.
  - unfold annual_region_totals.
    rewrite (renamed_totals (nameFor idx Region) (nameFor idx Region)).
    rewrite sum_groupby_sum, list_filter_filter.
    do 2 f_equal. apply list_filter_iff. intros r. rewrite is_Some_key3. tauto.
Qed.

(** X6: each spatial roll-up adds up to the migrants of the records that
    have both ends of its level and a month: a record whose country is not
    classified at that level counts in no row, every other record in
    exactly one, whatever the names the codes are shown under. *)
Theorem spatial_rollups_total (idx : HierarchyIndex) (df : list FlowRecord) :
  let counted (origin dest : FlowRecord → option string) :=
    Frame.sum (num_migrants
      <$> filter (λ r, is_Some (origin r) ∧ is_Some (dest r)
                       ∧ is_Some (migration_month r)) df) in
  Frame.sum (generate_region_to_country idx df).*2
  = counted region_from country_to
  ∧ Frame.sum (generate_country_to_region idx df).*2
    = counted country_from region_to
  ∧ Frame.sum (generate_region_to_region idx df).*2
    = counted region_from region_to
  ∧ Frame.sum (subregion_flows idx df).*2
    = counted subregion_from subregion_to
  ∧ Frame.sum (intermediate_flows idx df).*2
    = counted intermediate_from intermediate_to.
Proof.
  unfold generate_region_to_country, generate_country_to_region,
    generate_region_to_region, subregion_flows, intermediate_flows.
  simpl. split_and!.
  - rewrite <-monthly_sums_total. f_equal.
    apply (renamed_totals (nameFor idx Region) id).
  - rewrite <-monthly_sums_total. f_equal.
    apply (renamed_totals id (nameFor idx Region)).
  - rewrite <-monthly_sums_total. f_equal.
    apply (renamed_totals (nameFor idx Region) (nameFor idx Region)).
  - rewrite <-monthly_sums_total. f_equal.
    apply (renamed_totals (nameFor idx Subregion) (nameFor idx Subregion)).
  - rewrite <-monthly_sums_total. f_equal.
    apply (renamed_totals (nameFor idx Intermediate)
             (nameFor idx Intermediate)).
Qed.

Section RollupRows.
Import Frame.
Context {A B : Type} `{EqDecision A, EqDecision B, KeyOrd A, KeyOrd B}.
Variable origin : FlowRecord → option A.
Variable dest : FlowRecord → option B.
Variable df : list FlowRecord.

Lemma monthly_sums_elem a b m total :
  (a, b, m, total) ∈ monthly_sums origin dest df
  ↔ (∃ r, r ∈ df ∧ origin r = Some a ∧ dest r = Some b
          ∧ migration_month r = Some m)
    ∧ total = month_sum origin dest df a b m.
Proof.
  assert (filter (λ r, key3 (origin r) (dest r) (migration_month r)
                       = Some (a, b, m)) df
          = filter (λ r, origin r = Some a ∧ dest r = Some b
                         ∧ migration_month r = Some m) df) as Hfilter
    by (apply list_filter_iff; intros r; apply key3_Some).
  unfold monthly_sums, month_sum.
  rewrite groupby_sum_eq, list_elem_of_fmap. split.
  - intros (k & [= <- ->] & Hk). rewrite <-Hfilter. split; [|done].
    apply elem_of_group_keys in Hk as (r & Hr & Hkey).
    apply key3_Some in Hkey. by exists r.
  - intros [(r & Hr & Hkey) ->]. exists (a, b, m). rewrite Hfilter.
    split; [done|]. apply elem_of_group_keys. exists r.
    split; [done|]. by apply key3_Some.
Qed.

Lemma monthly_sums_renamed {A' B'} (f : A → A') (g : B → B') a' b' m total :
  (a', b', m, total)
    ∈ (λ '(a, b, date, total), (f a, g b, date, total))
        <$> monthly_sums origin dest df
  ↔ ∃ a b, a' = f a ∧ b' = g b
      ∧ (∃ r, r ∈ df ∧ origin r = Some a ∧ dest r = Some b
              ∧ migration_month r = Some m)
      ∧ total = month_sum origin dest df a b m.
Proof.
  rewrite list_elem_of_fmap. split.
  - intros ([[[a b] m'] total'] & [= -> -> -> ->] & Hin).
    exists a, b. split_and!; [done..| |]; by apply monthly_sums_elem in Hin as [? ?].
  - intros (a & b & -> & -> & Hr & ->).
    exists (a, b, m, month_sum origin dest df a b m). split; [done|].
    by apply monthly_sums_elem.
Qed.
End RollupRows.

(** X16: a row of a spatial roll-up stands for a pair of codes and a month
    with records: it shows the names of the two codes and carries the sum
    of the migrants of the records whose origin and destination have these
    codes in that month; there is a row for every such pair and month. *)
Theorem spatial_rollup_rows
    (idx : HierarchyIndex) (df : list FlowRecord)
    (origin dest : option string) (from to month : string) (total : Z) :
  ((origin, to, month, total) ∈ generate_region_to_country idx df
   ↔ ∃ c, origin = nameFor idx Region c
       ∧ (∃ r, r ∈ df ∧ region_from r = Some c ∧ country_to r = Some to
               ∧ migration_month r = Some month)
       ∧ total = month_sum region_from country_to df c to month)
  ∧ ((from, dest, month, total) ∈ generate_country_to_region idx df
     ↔ ∃ c, dest = nameFor idx Region c
         ∧ (∃ r, r ∈ df ∧ country_from r = Some from ∧ region_to r = Some c
                 ∧ migration_month r = Some month)
         ∧ total = month_sum country_from region_to df from c month)
  ∧ ((origin, dest, month, total) ∈ generate_region_to_region idx df
     ↔ ∃ c c', origin = nameFor idx Region c
         ∧ dest = nameFor idx Region c'
         ∧ (∃ r, r ∈ df ∧ region_from r = Some c ∧ region_to r = Some c'
                 ∧ migration_month r = Some month)
         ∧ total = month_sum region_from region_to df c c' month)
  ∧ ((origin, dest, month, total) ∈ subregion_flows idx df
     ↔ ∃ c c', origin = nameFor idx Subregion c
         ∧ dest = nameFor idx Subregion c'
         ∧ (∃ r, r ∈ df ∧ subregion_from r = Some c
                 ∧ subregion_to r = Some c'
                 ∧ migration_month r = Some month)
         ∧ total = month_sum subregion_from subregion_to df c c' month)
  ∧ ((origin, dest, month, total) ∈ intermediate_flows idx df
     ↔ ∃ c c', origin = nameFor idx Intermediate c
         ∧ dest = nameFor idx Intermediate c'
         ∧ (∃ r, r ∈ df ∧ intermediate_from r = Some c
                 ∧ intermediate_to r = Some c'
                 ∧ migration_month r = Some month)
         ∧ total = month_sum intermediate_from intermediate_to df c c' month).
Proof.
  unfold generate_region_to_country, generate_country_to_region,
    generate_region_to_region, subregion_flows, intermediate_flows.
  split_and!.
  - rewrite (monthly_sums_renamed _ _ _ (nameFor idx Region) id).
    split.
    + intros (c & b & ? & -> & ? & ?). by exists c.
    + intros (c & ? & ? & ?). by exists c, to.
  - rewrite (monthly_sums_renamed _ _ _ id (nameFor idx Region)).
    split.
    + intros (a & c & -> & ? & ? & ?). by exists c.
    + intros (c & ? & ? & ?). by exists from, c.
  - apply (monthly_sums_renamed _ _ _ (nameFor idx Region)
             (nameFor idx Region)).
  - apply (monthly_sums_renamed _ _ _ (nameFor idx Subregion)
             (nameFor idx Subregion)).
  - apply (monthly_sums_renamed _ _ _ (nameFor idx Intermediate)
             (nameFor idx Intermediate)).
Qed.

(** ** The net-flow view as a whole *)

Section Balance.
Import Frame.
Variable df : list FlowRecord.

Lemma mjoin_singletons_on {A B} (body : A → list B) (g : A → B) (l : list A) :
  (∀ k, k ∈ l → body k = [g k]) → mjoin (body <$> l) = g <$> l.
Proof.
  induction l as [|k l IH]; intros Hb; [done|].
  rewrite !fmap_cons.
  change (mjoin (body k :: (body <$> l))) with (body k ++ mjoin (body <$> l)).
  rewrite Hb by left. rewrite IH; [done|]. intros; apply Hb; by right.
Qed.

Lemma elem_of_net_keys f t y :
  (f, t, y) ∈ net_keys df ↔ has_flow df f t y ∨ has_flow df t f y.
Proof.
  unfold net_keys.
  by rewrite elem_of_sort_by, elem_of_remove_dups, elem_of_app, outbound_key,
    inbound_key.
Qed.

Lemma generate_net_flows_rows :
  generate_net_flows df = (λ k, net_row df k.1.1 k.1.2 k.2) <$> net_keys df.
Proof.
  unfold generate_net_flows, merge_outer. fold (net_keys df).
  erewrite (mjoin_singletons_on _
    (λ k, (k, (if decide (has_flow df k.1.1 k.1.2 k.2)
               then Some (flow_sum df k.1.1 k.1.2 k.2) else None),
              (if decide (has_flow df k.1.2 k.1.1 k.2)
               then Some (flow_sum df k.1.2 k.1.1 k.2) else None)))).
  - rewrite <-list_fmap_compose. apply list_fmap_ext. intros _ [[f t] y] _.
    simpl. unfold net_row.
    destruct (decide (has_flow df f t y)), (decide (has_flow df t f y)); simpl;
      rewrite ?(flow_sum_absent df f t y), ?(flow_sum_absent df t f y) by done;
      f_equal; lia.
  - intros [[f t] y] Hk. apply elem_of_net_keys in Hk. simpl.
    rewrite outbound_filter, inbound_filter.
    destruct (decide (has_flow df f t y)), (decide (has_flow df t f y));
      try done. tauto.
Qed.

Lemma sum_outbound_over_net_keys :
  sum ((λ k, flow_sum df k.1.1 k.1.2 k.2) <$> net_keys df)
  = sum (num_migrants <$> filter (λ r, is_Some
      (key3 (country_from r) (country_to r) (year r))) df).
Proof.
  rewrite <-(sum_over_keys _ num_migrants (net_keys df)).
  - f_equal. apply list_fmap_ext. by intros _ [[f t] y] _.
  - apply NoDup_sort_by, NoDup_remove_dups.
  - intros r [[f t] y] Hr Hk. apply elem_of_net_keys. left.
    apply key3_Some in Hk as (? & ? & ?). by exists r.
Qed.

Lemma sum_inbound_over_net_keys :
  sum ((λ k, flow_sum df k.1.2 k.1.1 k.2) <$> net_keys df)
  = sum (num_migrants <$> filter (λ r, is_Some
      (key3 (country_from r) (country_to r) (year r))) df).
Proof.
  transitivity (sum (num_migrants <$> filter (λ r, is_Some
      (key3 (country_to r) (country_from r) (year r))) df)).
  - rewrite <-(sum_over_keys _ num_migrants (net_keys df)).
    + f_equal. apply list_fmap_ext. intros _ [[f t] y] _. simpl.
      unfold flow_sum. do 2 f_equal. apply list_filter_iff. intros r.
      rewrite !key3_Some. tauto.
    + apply NoDup_sort_by, NoDup_remove_dups.
    + intros r [[f t] y] Hr Hk. apply elem_of_net_keys. right.
      apply key3_Some in Hk as (? & ? & ?). by exists r.
  - do 2 f_equal. apply list_filter_iff. intros r. rewrite !is_Some_key3. tauto.
Qed.
End Balance.

(** X7: the net flows of the view cancel out: they add up to 0, the gross
    flows add up to twice the annual totals (every record counts once as
    outbound and once as inbound), and a corridor from a country to itself
    has net flow 0. *)
Theorem net_flows_balance (df : list FlowRecord) :
  Frame.sum (net_flow <$> generate_net_flows df) = 0
  ∧ Frame.sum (gross_flow <$> generate_net_flows df)
    = 2 * Frame.sum (annual_totals df).*2
  ∧ ∀ row, row ∈ generate_net_flows df →
      nf_country_from row = nf_country_to row → net_flow row = 0.
Proof.
  rewrite generate_net_flows_rows, <-!list_fmap_compose.
  split; [|split].
  - etrans; [apply (sum_fmap_sub (λ k, flow_sum df k.1.2 k.1.1 k.2)
                      (λ k, flow_sum df k.1.1 k.1.2 k.2))|].
    rewrite sum_inbound_over_net_keys, sum_outbound_over_net_keys. lia.
  - etrans; [apply (sum_fmap_add (λ k, flow_sum df k.1.2 k.1.1 k.2)
                      (λ k, flow_sum df k.1.1 k.1.2 k.2))|].
    rewrite sum_inbound_over_net_keys, sum_outbound_over_net_keys.
    unfold annual_totals. rewrite sum_groupby_sum. lia.
  - intros row (k & -> & _)%list_elem_of_fmap. simpl. intros ->. lia.
Qed.

(** ** Names in a run *)

Lemma classified_listed rows k cell c :
  classified rows k cell = Some c →
  ∃ row, row ∈ rows ∧ is_Some (iso_alpha2 row) ∧ kind_code k row = Some c.
Proof.
  unfold classified. intros Hc.
  apply bind_Some in Hc as (iso & _ & Hc).
  apply bind_Some in Hc as (row & Hlast & Hcode).
  apply last_Some_elem_of in Hlast.
  apply list_elem_of_filter in Hlast as [Hiso Hrow].
  exists row. split_and!; [done| |done]. by eexists.
Qed.

(** X8: in a run the fallback label is never needed: every region,
    sub-region or intermediate-region code a record of the store carries has
    an entry in the name table of the index, and that entry is the name the
    views show. *)
Theorem run_codes_have_names
    (m49 : list M49Line) (flows : list FlowLine) (self : Processor)
    (r : FlowRecord) (k : Kind) (c : code) :
  init m49 flows = inr self → r ∈ df self →
  kind_from k r = Some c ∨ kind_to k r = Some c →
  ∃ name, kind_names (index self) k !! c = Some name
          ∧ nameFor (index self) k c = name.
Proof.
  unfold init. intros Hinit Hr Hcode.
  destruct (load_migration_data _ flows) as [|records] eqn:Hload; [done|].
  injection Hinit as <-. simpl in *.
  apply (load_migration_data_elem _ _ _ _ Hload) in Hr as (l & d & _ & -> & _).
  assert (∃ cell, classified (read_m49 m49) k cell = Some c) as [cell Hcell].
  { destruct Hcode as [Hcode|Hcode]; eexists; rewrite <-map_dict_classified;
      rewrite <-Hcode; by destruct k. }
  apply classified_listed in Hcell as (row & Hrow & Hiso & Hk).
  destruct (listed_code_has_entry m49 row k c Hrow Hiso Hk) as [name Hname].
  exists name. split; [done|]. unfold nameFor. by rewrite Hname.
Qed.

Lemma run_codes_have_names_witness :
  ∃ self r name,
    init intermediate_m49 six_flows = inr self ∧ r ∈ df self
    ∧ kind_from Region r = Some "2"
    ∧ kind_names (index self) Region !! "2" = Some name.
Proof.
  assert { self | init intermediate_m49 six_flows = inr self }
    as [self Hinit] by (eexists; vm_compute; reflexivity).
  assert { r | r ∈ df self ∧ kind_from Region r = Some "2" }
    as (r & Hr & Hk).
  { revert Hinit. vm_compute. intros [= <-]. eexists.
    split; [left|reflexivity]. }
  destruct (run_codes_have_names _ _ _ r Region "2" Hinit Hr (or_introl Hk))
    as (name & Hname & _).
  exists self, r, name. done.
Defined.

(** ** The top corridors *)

Section Top.
Import Frame.
Variable df : list FlowRecord.

Local Notation "'totals'" :=
  (groupby_sum (λ r, key2 (country_from r) (country_to r)) num_migrants df).
Local Notation "'by_total'" := (λ a b : string * string * Z, b.2 <=? a.2).

Lemma key2_Some {A B} (a : option A) (b : option B) (c : A * B) :
  key2 a b = Some c ↔ a = Some c.1 ∧ b = Some c.2.
Proof.
  destruct a, b, c; simpl; split; try (intros [? ?]); try done;
    intros; simplify_eq; done.
Qed.

Lemma corridor_totals_elem c v :
  (c, v) ∈ totals ↔ (0 < observations df c)%nat ∧ v = corridor_total df c.
Proof.
  assert (filter (λ r, key2 (country_from r) (country_to r) = Some c) df
          = filter (λ r, country_from r = Some c.1 ∧ country_to r = Some c.2)
              df) as Hfilter
    by (apply list_filter_iff; intros r; apply key2_Some).
  rewrite groupby_sum_eq, list_elem_of_fmap.
  unfold observations, corridor_total. split.
  - intros (k & [= -> ->] & Hk). rewrite <-Hfilter. split; [|done].
    apply elem_of_group_keys in Hk as (r & Hr & Hkey).
    assert (r ∈ filter (λ r, key2 (country_from r) (country_to r) = Some k) df)
      as Hin by by apply list_elem_of_filter.
    destruct (filter _ df); [by apply elem_of_nil in Hin|].
    rewrite length_cons. lia.
  - rewrite <-Hfilter. intros [Hpos ->]. exists c. split; [done|].
    apply elem_of_group_keys.
    destruct (filter _ df) as [|r l] eqn:Hrows;
      [by apply Nat.lt_irrefl in Hpos|].
    assert (r ∈ filter (λ r, key2 (country_from r) (country_to r) = Some c) df)
      as [? ?]%list_elem_of_filter by (rewrite Hrows; left).
    by exists r.
Qed.

Lemma by_total_total : leb_total by_total.
Proof. intros x y. rewrite !Z.leb_le. lia. Qed.

Lemma by_total_trans : leb_trans by_total.
Proof. intros x y z. rewrite !Z.leb_le. lia. Qed.

Lemma elem_of_top_corridors c :
  c ∈ top_corridors df
  ↔ ∃ i v, (i < 100)%nat ∧ sort_by by_total totals !! i = Some (c, v).
Proof.
  unfold top_corridors, nlargest. rewrite list_elem_of_fmap. split.
  - intros ([c' v] & -> & Hin). apply list_elem_of_lookup in Hin as [i Hi].
    apply lookup_take_Some in Hi as [Hi Hlt]. by exists i, v.
  - intros (i & v & Hlt & Hi). exists (c, v). split; [done|].
    apply list_elem_of_lookup. exists i. by apply lookup_take_Some.
Qed.

Lemma length_top_corridors :
  length (top_corridors df) = (100 `min` length (corridors df))%nat.
Proof.
  unfold top_corridors, nlargest, corridors.
  rewrite length_fmap, length_take, length_sort_by.
  rewrite <-(length_fmap fst), groupby_sum_keys. unfold group_keys.
  by rewrite length_sort_by.
Qed.

Lemma top_corridors_observed c :
  c ∈ top_corridors df → (0 < observations df c)%nat.
Proof.
  intros (i & v & _ & Hi)%elem_of_top_corridors.
  apply list_elem_of_lookup_2, elem_of_sort_by in Hi.
  by apply corridor_totals_elem in Hi as [? _].
Qed.

Lemma top_corridors_above c c' :
  c ∈ top_corridors df → c' ∉ top_corridors df →
  (0 < observations df c')%nat →
  corridor_total df c' ≤ corridor_total df c.
Proof.
  intros (i & v & Hlt & Hi)%elem_of_top_corridors Hout Hobs.
  assert ((c', corridor_total df c') ∈ sort_by by_total totals) as Hin
    by (by apply elem_of_sort_by, corridor_totals_elem).
  apply list_elem_of_lookup in Hin as [j Hj].
  assert (100 ≤ j)%nat as Hge.
  { destruct (decide (j < 100)%nat); [|lia].
    destruct Hout. apply elem_of_top_corridors. by eexists _, _. }
  pose proof (StronglySorted_lookup _ _ i j _ _
                (StronglySorted_sort_by by_total totals
                   by_total_total by_total_trans)
                ltac:(lia) Hi Hj) as Hle.
  simpl in Hle. apply Z.leb_le in Hle.
  apply list_elem_of_lookup_2, elem_of_sort_by in Hi.
  apply corridor_totals_elem in Hi as [_ ->]. done.
Qed.

Lemma rolling_rows_corridor row :
  row ∈ generate_rolling_averages df →
  ∃ c, rr_key row = Some c ∧ c ∈ top_corridors df
       ∧ (6 ≤ observations df c)%nat.
Proof.
  unfold generate_rolling_averages, corridor_data.
  intros (block & Hrow & Hblock)%list_elem_of_join.
  apply list_elem_of_omap in Hblock as (c & Hc & Hrows).
  exists c. split_and!; [by eapply corridor_rows_key|done|].
  unfold corridor_rows in Hrows. rewrite length_corridor_df in Hrows.
  by destruct (decide (6 ≤ observations df c)%nat).
Qed.

Lemma omap_nil {A B} (g : A → option B) (l : list A) :
  omap g l = [] ↔ ∀ x, x ∈ l → g x = None.
Proof.
  induction l as [|a l IH].
  - split; [|done]. by intros _ x ?%elem_of_nil.
  - change (omap g (a :: l))
      with (match g a with Some y => y :: omap g l | None => omap g l end).
    destruct (g a) as [b|] eqn:Ha.
    + split; [done|]. intros Hall. specialize (Hall a ltac:(left)). congruence.
    + rewrite IH. split.
      * intros Hall x [->|?]%elem_of_cons; [done|by apply Hall].
      * intros Hall x ?. apply Hall. by right.
Qed.

Lemma corridor_data_nil :
  corridor_data df = []
  ↔ ∀ c, c ∈ top_corridors df → (observations df c < 6)%nat.
Proof.
  unfold corridor_data. rewrite omap_nil.
  split; intros Hall c Hc; specialize (Hall c Hc); revert Hall;
    unfold corridor_rows; rewrite length_corridor_df;
    destruct (decide (6 ≤ observations df c)%nat); try done; lia.
Qed.
End Top.

(** X9: the rolling-averages view is about the (at most) 100 corridors with
    the largest all-time totals: the selection holds distinct corridors with
    records, all of them when there are no more than 100, no corridor left
    out has a larger total than one selected, every row of the view belongs
    to a selected corridor with at least 6 records, and nothing is collected
    exactly when no selected corridor has 6 records. *)
Theorem top_corridors_largest (df : list FlowRecord) :
  length (top_corridors df) = (100 `min` length (corridors df))%nat
  ∧ NoDup (top_corridors df)
  ∧ (∀ c, c ∈ top_corridors df → (0 < observations df c)%nat)
  ∧ (∀ c c', c ∈ top_corridors df → c' ∉ top_corridors df →
       (0 < observations df c')%nat →
       corridor_total df c' ≤ corridor_total df c)
  ∧ (∀ row, row ∈ generate_rolling_averages df →
       ∃ c, rr_key row = Some c ∧ c ∈ top_corridors df
            ∧ (6 ≤ observations df c)%nat)
  ∧ (corridor_data df = []
     ↔ ∀ c, c ∈ top_corridors df → (observations df c < 6)%nat).
Proof.
  split_and!.
  - apply length_top_corridors.
  - apply NoDup_top_corridors.
  - apply top_corridors_observed.
  - apply top_corridors_above.
  - apply rolling_rows_corridor.
  - apply corridor_data_nil.
Qed.

(** ** The rows of the ranking *)

Section RankingRows.
Import Frame.

Lemma filter_or_Permutation {A} (P Q : A → Prop)
    `{∀ x, Decision (P x), ∀ x, Decision (Q x)} (l : list A) :
  (∀ x, P x → Q x → False) →
  filter P l ++ filter Q l ≡ₚ filter (λ x, P x ∨ Q x) l.
Proof.
  intros Hdisj. induction l as [|x l IH]; [done|].
  rewrite !filter_cons.
  destruct (decide (P x)) as [HP|HP], (decide (Q x)) as [HQ|HQ].
  - destruct (Hdisj x HP HQ).
  - rewrite decide_True by tauto. simpl. by rewrite IH.
  - rewrite decide_True by tauto. rewrite <-Permutation_middle. by rewrite IH.
  - by rewrite decide_False by tauto.
Qed.

Lemma partition_Permutation {A K} `{EqDecision K} (proj : A → K)
    (ks : list K) (l : list A) :
  NoDup ks →
  mjoin ((λ k, filter (λ x, proj x = k) l) <$> ks)
  ≡ₚ filter (λ x, proj x ∈ ks) l.
Proof.
  induction 1 as [|k ks Hk Hnd IH].
  - rewrite filter_drop_all; [done|]. intros x _. apply not_elem_of_nil.
  - rewrite fmap_cons.
    change (mjoin (?b :: ?bs)) with (b ++ mjoin bs).
    rewrite IH, filter_or_Permutation by (by intros x -> ?).
    erewrite list_filter_iff; [done|].
    intros x. rewrite elem_of_cons. naive_solver.
Qed.

Lemma rankings_entries df rows :
  generate_corridor_rankings df = inr rows →
  rk_entry <$> rows ≡ₚ annual_totals df.
Proof.
  unfold generate_corridor_rankings. intros Hgen.
  assert (rows = mjoin (rank_year (annual_totals df)
                          <$> unique (annual_totals df).*1.*2)) as ->.
  { destruct (rank_year _ <$> _); by simplify_eq. }
  set (annual := annual_totals df).
  assert (∀ ys, rk_entry <$> mjoin (rank_year annual <$> ys)
                = mjoin ((λ y, filter (λ r, r.1.2 = y) annual) <$> ys)) as ->.
  { induction ys as [|y ys IH]; [done|].
    rewrite !fmap_cons.
    change (mjoin (?b :: ?bs)) with (b ++ mjoin bs).
    rewrite fmap_app, IH. f_equal.
    unfold rank_year, year_data. rewrite <-list_fmap_compose.
    rewrite <-(list_fmap_id (filter _ annual)) at 2.
    apply list_fmap_ext. by intros _ [[[f t] y'] total] _. }
  rewrite partition_Permutation by apply NoDup_unique.
  rewrite filter_keep_all; [done|].
  intros r Hr. apply elem_of_unique. rewrite <-list_fmap_compose.
  by apply (list_elem_of_fmap_2 (λ r, r.1.2)).
Qed.

Lemma rank_dense_desc_bounds (col : list Z) (v : Z) :
  v ∈ col → 1 ≤ rank_dense_desc col v ≤ Z.of_nat (length col).
Proof.
  intros Hv. unfold rank_dense_desc.
  assert (length (filter (λ w, (v < w)%Z) col) < length col)%nat
    by (apply (length_filter_lt _ _ v); [done|lia]).
  pose proof (submseteq_length _ _
    (NoDup_submseteq _ (filter (λ w, v < w) col)
       (NoDup_remove_dups _)
       (λ x, proj1 (elem_of_remove_dups _ x)))).
  lia.
Qed.

Lemma rank_pct_bounds (col : list Z) (v : Z) :
  v ∈ col → (0 < rank_pct col v * 100 ∧ rank_pct col v * 100 <= 100)%Q.
Proof.
  intros Hv. unfold rank_pct, rank_average.
  set (below := Z.of_nat (length (filter (λ w, w < v) col))).
  set (equal := Z.of_nat (length (filter (λ w, w = v) col))).
  set (n := Z.of_nat (length col)).
  assert (0 ≤ below) by apply Nat2Z.is_nonneg.
  assert (1 ≤ equal).
  { assert (v ∈ filter (λ w, w = v) col) as Hin
      by (by apply list_elem_of_filter).
    unfold equal.
    destruct (filter (λ w, w = v) col); [by apply elem_of_nil in Hin|].
    rewrite length_cons. lia. }
  assert (below + equal ≤ n).
  { unfold below, equal, n. rewrite <-Nat2Z.inj_add, <-length_app.
    apply Nat2Z.inj_le.
    rewrite (filter_or_Permutation (λ w, w < v) (λ w, w = v)) by lia.
    apply length_filter. }
  assert (0 < inject_Z n)%Q
    by (change 0%Q with (inject_Z 0); rewrite <-Zlt_Qlt; lia).
  assert (0 < inject_Z (2 * below + equal + 1))%Q
    by (change 0%Q with (inject_Z 0); rewrite <-Zlt_Qlt; lia).
  assert (inject_Z (2 * below + equal + 1) <= 2 * inject_Z n)%Q.
  { change 2%Q with (inject_Z 2). rewrite <-inject_Z_mult, <-Zle_Qle. lia. }
  split.
  - apply Qmult_lt_0_compat; [|done].
    apply Qlt_shift_div_l; [done|]. apply Qlt_shift_div_l; [done|]. lra.
  - assert (inject_Z (2 * below + equal + 1) / 2 / inject_Z n <= 1)%Q; [|lra].
    apply Qle_shift_div_r; [done|]. apply Qle_shift_div_r; [done|]. lra.
Qed.
End RankingRows.

(** X10: the ranking raises only when there is nothing to rank, that is
    when no record has origin, destination and date; otherwise it has
    exactly one row per annual total, with a rank between 1 and the number
    of corridors of the year and a percentile above 0 and at most 100. *)
Theorem corridor_rankings_rows (df : list FlowRecord) :
  match generate_corridor_rankings df with
  | inl e =>
      e = NoObjectsToConcatenate
      ∧ ∀ r, r ∈ df → ¬ (is_Some (country_from r) ∧ is_Some (country_to r)
                          ∧ is_Some (year r))
  | inr rows =>
      rows ≠ []
      ∧ rk_entry <$> rows ≡ₚ annual_totals df
      ∧ ∀ a, a ∈ rows →
          1 ≤ rank a ≤ Z.of_nat (length (year_totals rows (rk_year a)))
          ∧ (0 < percentile a ∧ percentile a <= 100)%Q
  end.
Proof.
  destruct (generate_corridor_rankings df) as [e|rows] eqn:Hgen.
  - unfold generate_corridor_rankings in Hgen.
    destruct (rank_year _ <$> _) as [|block blocks] eqn:Hblocks; [|done].
    split; [by simplify_eq|].
    intros r Hr [[[f t] y] Hkey]%is_Some_key3.
    apply fmap_nil_inv in Hblocks.
    assert (y ∈ unique (annual_totals df).*1.*2) as Hin; last first.
    { rewrite Hblocks in Hin. by apply elem_of_nil in Hin. }
    apply elem_of_unique. rewrite <-list_fmap_compose.
    apply list_elem_of_fmap.
    exists (f, t, y, flow_sum df f t y). split; [done|].
    apply annual_totals_elem. split; [|done].
    apply key3_Some in Hkey as (? & ? & ?). by exists r.
  - pose proof (rankings_entries df rows Hgen) as Hperm.
    split_and!; [|done|].
    + intros ->. unfold generate_corridor_rankings in Hgen.
      destruct (rank_year _ <$> _) as [|block blocks] eqn:Hblocks; [done|].
      apply Permutation_nil_l in Hperm.
      rewrite <-Hperm in Hblocks. done.
    + intros a Ha.
      destruct (rankings_row df rows a Hgen Ha) as (-> & -> & Hin).
      split; [by apply rank_dense_desc_bounds|by apply rank_pct_bounds].
Qed.

(** ** Seasonal patterns *)

Section Seasonal.
Import Frame.
Variable df : list FlowRecord.

Local Notation "'seasonal'" :=
  (groupby_mean (λ r, key3 (country_from r) (country_to r) (season r))
     num_migrants df).

Lemma groupby_mean_eq {R K} `{EqDecision K, KeyOrd K}
    (key : R → option K) (col : R → Z) (l : list R) :
  groupby_mean key col l
  = (λ k, (k, mean (col <$> filter (λ r, key r = Some k) l)))
      <$> group_keys key l.
Proof. unfold groupby_mean, groupby. by rewrite <-list_fmap_compose. Qed.

Lemma seasonal_elem f t s avg :
  (f, t, s, avg) ∈ seasonal
  ↔ (∃ r, r ∈ df ∧ country_from r = Some f ∧ country_to r = Some t
          ∧ season r = Some s)
    ∧ avg = mean (num_migrants <$>
              filter (λ r, country_from r = Some f ∧ country_to r = Some t
                           ∧ season r = Some s) df).
Proof.
  assert (filter (λ r, key3 (country_from r) (country_to r) (season r)
                       = Some (f, t, s)) df
          = filter (λ r, country_from r = Some f ∧ country_to r = Some t
                         ∧ season r = Some s) df) as Hfilter
    by (apply list_filter_iff; intros r; apply key3_Some).
  rewrite groupby_mean_eq, list_elem_of_fmap. split.
  - intros (k & [= <- ->] & Hk). rewrite <-Hfilter. split; [|done].
    apply elem_of_group_keys in Hk as (r & Hr & Hkey).
    apply key3_Some in Hkey. by exists r.
  - intros [(r & Hr & Hkey) ->]. exists (f, t, s). rewrite Hfilter.
    split; [done|]. apply elem_of_group_keys. exists r.
    split; [done|]. by apply key3_Some.
Qed.

Lemma pivot_cell_mean f t s :
  pivot_cell s (filter (λ e, Some e.1.1 = Some (f, t)) seasonal)
  = season_mean df f t s.
Proof.
  unfold pivot_cell, season_mean.
  destruct (list_find _ _) as [[i [[[f' t'] s'] avg]]|] eqn:Hfind.
  - apply list_find_Some in Hfind as (Hi & Hs & _). simpl in Hs. subst s'.
    apply list_elem_of_lookup_2, list_elem_of_filter in Hi as [Hk Hin].
    simpl in Hk. injection Hk as -> ->.
    apply seasonal_elem in Hin as [_ ->]. by destruct (mean _).
  - apply list_find_None in Hfind. rewrite Forall_forall in Hfind.
    destruct (filter (λ r, country_from r = Some f ∧ _) df) as [|r l] eqn:Hrows;
      [done|].
    assert (r ∈ filter (λ r, country_from r = Some f ∧ country_to r = Some t
                             ∧ season r = Some s) df)
      as [Hkey Hr]%list_elem_of_filter by (rewrite Hrows; left).
    destruct (Hfind (f, t, s, mean (num_migrants <$>
              filter (λ r, country_from r = Some f ∧ country_to r = Some t
                           ∧ season r = Some s) df))); [|done].
    apply list_elem_of_filter. split; [done|].
    apply seasonal_elem. split; [by exists r|done].
Qed.

Lemma seasonal_columns s :
  s ∈ sort_by key_leb (remove_dups (seasonal.*1.*2))
  ↔ ∃ r, r ∈ df ∧ is_Some (country_from r) ∧ is_Some (country_to r)
         ∧ season r = Some s.
Proof.
  rewrite elem_of_sort_by, elem_of_remove_dups, <-list_fmap_compose,
    list_elem_of_fmap.
  split.
  - intros ([[[f t] s'] avg] & -> & (Hr & _)%seasonal_elem).
    destruct Hr as (r & Hr & Hf & Ht & Hs). exists r.
    split_and!; [done|by eexists|by eexists|done].
  - intros (r & Hr & [f Hf] & [t Ht] & Hs).
    eexists (f, t, s, _). split; [done|].
    apply seasonal_elem. split; [by exists r|done].
Qed.

Lemma seasonal_patterns_elem f t cells :
  (f, t, cells) ∈ generate_seasonal_patterns df
  ↔ (∃ r, r ∈ df ∧ country_from r = Some f ∧ country_to r = Some t
          ∧ is_Some (season r))
    ∧ cells = (λ s, (s, season_mean df f t s))
                <$> sort_by key_leb (remove_dups (seasonal.*1.*2)).
Proof.
  unfold generate_seasonal_patterns, groupby.
  rewrite <-list_fmap_compose, list_elem_of_fmap. split.
  - intros ([f' t'] & Heq & Hk). simpl in Heq. injection Heq as -> -> ->.
    apply elem_of_group_keys in Hk as ([[[f0 t0] s] avg] & Hin & Hk).
    simpl in Hk. injection Hk as -> ->.
    apply seasonal_elem in Hin as [(r & Hr & Hf & Ht & Hs) _].
    split; [exists r; split_and!; by eauto|].
    apply list_fmap_ext. intros _ s' _. f_equal. apply pivot_cell_mean.
  - intros [(r & Hr & Hf & Ht & [s Hs]) ->]. exists (f, t). split.
    + simpl. f_equal. apply list_fmap_ext. intros _ s' _. f_equal.
      symmetry. apply pivot_cell_mean.
    + apply elem_of_group_keys. eexists (f, t, s, _). split; [|done].
      apply seasonal_elem. split; [by exists r|done].
Qed.
End Seasonal.

Lemma seasonal_patterns_keys (df : list FlowRecord) :
  NoDup ((λ row, row.1) <$> generate_seasonal_patterns df).
Proof.
  unfold generate_seasonal_patterns, Frame.groupby.
  rewrite <-!list_fmap_compose.
  erewrite list_fmap_ext; [rewrite list_fmap_id; apply NoDup_group_keys|].
  by intros _ [f t] _.
Qed.

(** X11: the seasonal view has exactly one row per corridor that has a
    record with a season, and no other row; the columns of the pivot are
    the seasons that occur in the frame, each once; and the row of a
    corridor holds, for each column, the mean of the migrants of the
    corridor's records of that season, 0 when it has none. *)
Theorem seasonal_patterns_cells (df : list FlowRecord) :
  NoDup ((λ row, row.1) <$> generate_seasonal_patterns df)
  ∧ (∀ f t,
       (∃ r, r ∈ df ∧ country_from r = Some f ∧ country_to r = Some t
             ∧ is_Some (season r))
       ↔ ∃ cells, (f, t, cells) ∈ generate_seasonal_patterns df)
  ∧ NoDup (season_columns df)
  ∧ (∀ s, s ∈ season_columns df
          ↔ ∃ r, r ∈ df ∧ is_Some (country_from r) ∧ is_Some (country_to r)
                 ∧ season r = Some s)
  ∧ (∀ f t cells,
       (f, t, cells) ∈ generate_seasonal_patterns df →
       cells = (λ s, (s, season_mean df f t s)) <$> season_columns df).
Proof.
  split; [apply seasonal_patterns_keys|]. split; [|split; [|split]].
  - intros f t. split.
    + intros Hr. eexists. apply seasonal_patterns_elem. by split.
    + by intros (cells & [Hr _]%seasonal_patterns_elem).
  - apply NoDup_sort_by, NoDup_remove_dups.
  - apply seasonal_columns.
  - by intros f t cells [_ ->]%seasonal_patterns_elem.
Qed.

(** ** Quarterly averages *)

Section Quarterly.
Import Frame.
Variable df : list FlowRecord.

Lemma key4_Some {A B C D} (a : option A) (b : option B) (c : option C)
    (d : option D) w x y z :
  key4 a b c d = Some (w, x, y, z)
  ↔ a = Some w ∧ b = Some x ∧ c = Some y ∧ d = Some z.
Proof.
  destruct a, b, c, d; simpl; split; try (intros (? & ? & ? & ?)); try done;
    intros; simplify_eq; done.
Qed.

Lemma quarterly_elem f t label avg :
  (f, t, label, avg) ∈ generate_quarterly_averages df
  ↔ ∃ y q, label = astype_str df y +:+ "-Q" +:+ astype_str df q
      ∧ quarter_records df f t y q ≠ []
      ∧ avg = mean (num_migrants <$> quarter_records df f t y q).
Proof.
  assert (∀ y q,
    filter (λ r, key4 (country_from r) (country_to r) (year r) (quarter r)
                 = Some (f, t, y, q)) df
    = quarter_records df f t y q) as Hfilter
    by (intros y q; apply list_filter_iff; intros r; apply key4_Some).
  unfold generate_quarterly_averages.
  rewrite groupby_mean_eq, <-list_fmap_compose, list_elem_of_fmap. split.
  - intros ([[[f' t'] y] q] & [= -> -> -> ->] & Hk). exists y, q.
    rewrite Hfilter. split_and!; [done| |done].
    apply elem_of_group_keys in Hk as (r & Hr & Hkey).
    intros Hnil.
    assert (r ∈ quarter_records df f' t' y q) as Hin
      by (rewrite <-Hfilter; by apply list_elem_of_filter).
    rewrite Hnil in Hin. by apply elem_of_nil in Hin.
  - intros (y & q & -> & Hne & ->). exists (f, t, y, q).
    split; [simpl; by rewrite Hfilter|].
    apply elem_of_group_keys.
    destruct (quarter_records df f t y q) as [|r l] eqn:Hrows; [done|].
    assert (r ∈ quarter_records df f t y q) as Hin by (rewrite Hrows; left).
    rewrite <-Hfilter in Hin. apply list_elem_of_filter in Hin as [? ?].
    by exists r.
Qed.
End Quarterly.

(** X17: the quarterly view has a row exactly for each corridor, year and
    quarter with records; its average is the sum of the migrants of these
    records over their number (not over three months), and its label is the
    year and the quarter as [astype(str)] prints them, joined by -Q. *)
Theorem quarterly_averages_rows
    (df : list FlowRecord) (f t label : string) (avg : option Q) :
  (f, t, label, avg) ∈ generate_quarterly_averages df
  ↔ ∃ y q, label = astype_str df y +:+ "-Q" +:+ astype_str df q
      ∧ quarter_records df f t y q ≠ []
      ∧ avg = Some (inject_Z
                      (Frame.sum (num_migrants <$> quarter_records df f t y q))
                    / inject_Z (Z.of_nat (length (quarter_records df f t y q))))%Q.
Proof.
  rewrite quarterly_elem. split; intros (y & q & -> & Hne & ->);
    exists y, q; (split_and!; [done..|]);
    destruct (quarter_records df f t y q); try done;
    unfold Frame.mean; by rewrite ?length_fmap, ?fmap_cons.
Qed.

(** ** How a run ends *)

Section Outcome.
Variable self : Processor.
Variable existing : list string.



End Outcome.


(** ** The date conversion script *)

Lemma string_length_app (s t : string) :
  String.length (s +:+ t) = (String.length s + String.length t)%nat.
Proof. induction s as [|c s IH]; simpl; [done|]. by rewrite IH. Qed.

Lemma strptime_append_day (s : string) :
  strptime Fmt_Ymd (s +:+ "-01") = strptime Fmt_Ym s.
Proof.
  destruct (decide (String.length s = 7%nat)) as [Hlen|Hlen].
  - destruct s as [|c0 [|c1 [|c2 [|c3 [|c4 [|c5 [|c6 [|c7 s]]]]]]]];
      try discriminate Hlen.
    unfold strptime.
    destruct (decide (c4 = "-"%char)) as [->|Hc].
    + rewrite !decide_True by done.
      change (String.substring 0 4 (_ +:+ "-01"))
        with (String.substring 0 4
                (String c0 (String c1 (String c2 (String c3 (String "-"
                   (String c5 (String c6 EmptyString)))))))).
      change (String.substring 5 2 (_ +:+ "-01"))
        with (String.substring 5 2
                (String c0 (String c1 (String c2 (String c3 (String "-"
                   (String c5 (String c6 EmptyString)))))))).
      destruct (number (String.substring 0 4 _)) as [y|]; [|done].
      destruct (number (String.substring 5 2 _)) as [m|]; [|done].
      done.
    + rewrite !decide_False; [done|..].
      * intros [_ Hget]. simpl in Hget. congruence.
      * intros (_ & Hget & _). simpl in Hget. congruence.
  - unfold strptime. rewrite !decide_False; [done|..].
    + by intros [? _].
    + intros [Hl _]. rewrite string_length_app in Hl. simpl in Hl. lia.
Qed.

Lemma year_month_present (text : string) :
  is_Some (strptime Fmt_Ym text) → read_cell text = Some text.
Proof.
  intros Hfit. unfold read_cell. destruct (decide (text ∈ na_values)) as [Hna|];
    [|done].
  exfalso. revert Hfit. unfold na_values in Hna.
  repeat (apply elem_of_cons in Hna as [->|Hna];
          [vm_compute; by intros [? ?]|]).
  by apply elem_of_nil in Hna.
Qed.

Lemma with_first_day_Some (l : FlowLine) (d : Date) :
  strptime Fmt_Ymd (with_first_day l) = Some d
  ↔ strptime Fmt_Ym (line_migration_month l) = Some d.
Proof.
  unfold with_first_day. rewrite strptime_append_day. unfold read_cell.
  destruct (decide (line_migration_month l ∈ na_values)) as [Hna|]; [|done].
  simpl. split; [by vm_compute|].
  intros Hd. assert (is_Some (strptime Fmt_Ym (line_migration_month l)))
    as Hfit%year_month_present by by eexists.
  unfold read_cell in Hfit. by rewrite decide_True in Hfit.
Qed.

Lemma strptime_Ym_day (s : string) (d : Date) :
  strptime Fmt_Ym s = Some d → date_day d = 1.
Proof.
  unfold strptime. destruct (decide _); [|done]. intros Hd.
  apply bind_Some in Hd as (y & _ & Hd).
  apply bind_Some in Hd as (m & _ & Hd).
  destruct (valid_date _); by simplify_eq.
Qed.

(** The converted column and the date column of the loader. *)
Lemma convert_column_loaded (lines : list FlowLine) (dates : list Date) :
  lines ≠ [] →
  mapM (λ l, strptime Fmt_Ymd (with_first_day l)) lines = Some dates →
  to_datetime (month_column lines) = inr (Some <$> dates).
Proof.
  intros Hne Hmap. apply mapM_Some_1 in Hmap.
  assert (Forall2 (λ l d, strptime Fmt_Ym (line_migration_month l) = Some d)
            lines dates) as Hall.
  { eapply Forall2_impl; [exact Hmap|]. intros l d. apply with_first_day_Some. }
  clear Hmap. unfold to_datetime, month_column.
  destruct Hall as [|l d lines dates Hl Hall]; [done|].
  rewrite fmap_cons, (year_month_present (line_migration_month l))
    by by eexists.
  change (head (omap id (Some ?x :: ?rest))) with (Some x).
  cbv beta iota. rewrite (guess_datetime_format_fits Fmt_Ym) by by eexists.
  assert (mapM (λ cell, match cell with
                        | None => Some None
                        | Some s => Some <$> strptime Fmt_Ym s
                        end)
            (Some (line_migration_month l)
               :: ((λ l, read_cell (line_migration_month l)) <$> lines))
          = Some (Some <$> d :: dates)) as ->; [|done].
  apply mapM_Some_2.
  constructor; [by rewrite Hl|].
  clear Hl Hne. induction Hall as [|l' d' lines dates Hl' Hall IH];
    [constructor|].
  rewrite !fmap_cons. constructor; [|done].
  rewrite (year_month_present (line_migration_month l')) by by eexists.
  by rewrite Hl'.
Qed.

(** X13: on a file with the four columns, at least one line, and every
    month of the form YYYY-MM, the conversion returns True and the script
    exits with status 0. *)
Theorem convert_year_months (csv : Csv) :
  sample_columns ⊆ csv_columns csv →
  csv_lines csv ≠ [] →
  Forall year_month (csv_lines csv) →
  returned (convert_migration_dates (Some csv)) = true
  ∧ convert_main (Some csv) = 0.
Proof.
  intros Hcols Hne Hall.
  assert (returned (convert_migration_dates (Some csv)) = true) as Hret.
  { unfold convert_migration_dates.
    rewrite decide_True
      by (apply Hcols; apply (bool_decide_unpack _); vm_compute; exact I).
    rewrite decide_True by done.
    assert (is_Some (mapM (λ l, strptime Fmt_Ymd (with_first_day l))
                       (csv_lines csv))) as [dates Hdates].
    { apply mapM_is_Some. eapply Forall_impl; [exact Hall|].
      intros l [d Hd]. exists d. by apply with_first_day_Some. }
    rewrite Hdates. destruct dates; [|done].
    apply length_mapM in Hdates. by destruct (csv_lines csv). }
  split; [done|]. unfold convert_main. by rewrite Hret.
Qed.

Lemma convert_year_months_witness :
  returned (convert_migration_dates (Some convert_flows)) = true
  ∧ convert_main (Some convert_flows) = 0.
Proof.
  apply convert_year_months.
  - done.
  - done.
  - unfold convert_flows, example_flows, year_month. simpl.
    repeat constructor; vm_compute; by eexists.
Defined.

(** X14: when the conversion returns True, the file written has one date per
    line of the original, each the first day of its month, and the dates are
    those the aggregation script derives from the same lines. *)
Theorem convert_success_dates (csv : Csv) (out : option (list Date)) :
  convert_migration_dates (Some csv)
  = {| returned := true; written_months := out |} →
  ∃ dates, out = Some dates
    ∧ csv_lines csv ≠ []
    ∧ length dates = length (csv_lines csv)
    ∧ Forall (λ d, date_day d = 1) dates
    ∧ ∀ idx, ∃ records,
        load_migration_data idx (csv_lines csv) = inr records
        ∧ date <$> records = Some <$> dates.
Proof.
  unfold convert_migration_dates. intros Hrun.
  repeat (destruct (decide _); [|done]).
  destruct (mapM _ (csv_lines csv)) as [dates|] eqn:Hmap; [|done].
  destruct dates as [|d dates]; [done|]. injection Hrun as <-.
  exists (d :: dates).
  assert (csv_lines csv ≠ []) as Hne.
  { intros Hnil. by rewrite Hnil in Hmap. }
  pose proof (length_mapM _ _ _ Hmap) as Hlen.
  split_and!; [done..| |].
  - pose proof (mapM_Some_1 _ _ _ Hmap) as Hall.
    apply Forall_forall. intros d' Hd'.
    apply list_elem_of_lookup in Hd' as [i Hi].
    destruct (Forall2_lookup_r _ _ _ _ _ Hall Hi) as (l & _ & Hl).
    apply with_first_day_Some in Hl. by eapply strptime_Ym_day.
  - intros idx. unfold load_migration_data.
    rewrite (convert_column_loaded _ _ Hne Hmap).
    eexists. split; [done|].
    generalize (d :: dates) Hlen. clear.
    induction (csv_lines csv) as [|l lines IH]; intros [|d dates] Hlen;
      try done.
    rewrite fmap_cons. simpl. f_equal. apply IH. by injection Hlen.
Qed.

Lemma convert_success_dates_witness :
  ∃ dates, written_months (convert_migration_dates (Some convert_flows))
           = Some dates
    ∧ Forall (λ d, date_day d = 1) dates.
Proof.
  assert { out | convert_migration_dates (Some convert_flows)
                 = {| returned := true; written_months := out |} }
    as [out Hrun] by (eexists; vm_compute; reflexivity).
  destruct (convert_success_dates _ _ Hrun) as (dates & -> & _ & _ & Hday & _).
  exists dates. split; [by rewrite Hrun|done].
Defined.

(** X15: the conversion returns False and writes nothing when the original
    file is absent, when it lacks one of the four columns, when a month is
    missing, or when a month is a full date already; on a file without
    lines it writes the (empty) output and still returns False; and the
    script exits with status 1 whenever False is returned. *)
Theorem convert_failures (original : option Csv) :
  (original = None
   ∨ (∃ csv, original = Some csv ∧ ¬ sample_columns ⊆ csv_columns csv)
   ∨ (∃ csv l, original = Some csv ∧ l ∈ csv_lines csv
        ∧ (read_cell (line_migration_month l) = None
           ∨ is_Some (strptime Fmt_Ymd (line_migration_month l)))) →
   convert_migration_dates original
   = {| returned := false; written_months := None |})
  ∧ (∀ csv, original = Some csv → sample_columns ⊆ csv_columns csv →
       csv_lines csv = [] →
       convert_migration_dates original
       = {| returned := false; written_months := Some [] |})
  ∧ (returned (convert_migration_dates original) = false →
     convert_main original = 1).
Proof.
  split_and!.
  - intros [->|[(csv & -> & Hcols)|(csv & l & -> & Hl & Hcell)]]; [done|..].
    + unfold convert_migration_dates.
      destruct (decide _); [|done]. by rewrite decide_False.
    + unfold convert_migration_dates.
      repeat (destruct (decide _); [|done]).
      destruct (mapM _ (csv_lines csv)) as [dates|] eqn:Hmap; [|done].
      exfalso. apply mapM_Some_1 in Hmap.
      apply list_elem_of_lookup in Hl as [i Hi].
      destruct (Forall2_lookup_l _ _ _ _ _ Hmap Hi) as (d & _ & Hd).
      apply with_first_day_Some in Hd.
      destruct Hcell as [Hna|Hfull].
      * rewrite year_month_present in Hna by by eexists. done.
      * apply strptime_formats_disjoint in Hfull. congruence.
  - intros csv -> Hcols Hnil. unfold convert_migration_dates.
    rewrite decide_True
      by (apply Hcols; apply (bool_decide_unpack _); vm_compute; exact I).
    rewrite decide_True by done. by rewrite Hnil.
  - unfold convert_main. by intros ->.
Qed.
